(** * Teslin performance chart: period resolution and return calculation

    A shallow embedding of [src/utils/dateUtils.ts], [src/utils/dataProcessor.ts],
    the data transformation of [src/components/ChartDisplay.tsx], the guard of
    [src/components/ResultsDisplay.tsx] and the state that [src/App.tsx] hands
    to them, together with the part of the JavaScript host they call: the
    time-value arithmetic behind [Date] (ECMAScript, "Date Objects") and
    binary64 [Number]s.

    Modelling conventions.
    - A [Date] is its time value, an integer number of milliseconds since the
      epoch.  The ingestion code drops invalid dates, so the NaN time value is
      not represented, and [TimeClip] (which only rejects instants more than
      10^8 days from the epoch) is left out.
    - Integer-valued [Number]s are modelled by [Z].  Binary64 holds every
      integer of magnitude up to 2^53 exactly; time values (at most
      8.64 * 10^15 in magnitude), years, months, days and the day counts
      made of them are such integers.  The difference of two time values can
      exceed 2^53, and there binary64 rounds it: so does the model
      ([round53]).
    - Every other [Number] is a binary64 float, Rocq's primitive [float], whose
      operations are the IEEE 754 ones.
    - [null] is [None]; reading a property of [undefined] raises [TypeError].
    - The host (local time zone, wall clock, [Math.pow]) is an explicit
      [Host] record threaded through the functions that consult it. *)

From Stdlib Require Import ZArith Lia List Bool Floats Permutation Sorted.
From Stdlib Require Uint63.
Import ListNotations.

Ltac Zify.zify_post_hook ::= Z.to_euclidean_division_equations.

Local Open Scope Z_scope.

(** ** The host *)

Record Host := mkHost {
  (** offset of local time from UTC, in milliseconds (a fixed-offset zone) *)
  LocalTZA : Z;
  (** the time value that [new Date()] receives from the wall clock *)
  currentTime : Z;
  (** [Math.pow]; ECMAScript leaves its precision to the implementation *)
  Math_pow : float -> float -> float
}.

(** ** Time values (ECMAScript "Time Values and Time Range" and following) *)

Module JSDate.

Definition msPerDay : Z := 86400000.

Definition Day (t : Z) : Z := t / msPerDay.
Definition TimeWithinDay (t : Z) : Z := t mod msPerDay.

Definition DaysInYear (y : Z) : Z :=
  if negb (y mod 4 =? 0) then 365
  else if negb (y mod 100 =? 0) then 366
  else if negb (y mod 400 =? 0) then 365
  else 366.

Definition DayFromYear (y : Z) : Z :=
  365 * (y - 1970) + (y - 1969) / 4 - (y - 1901) / 100 + (y - 1601) / 400.

Definition TimeFromYear (y : Z) : Z := msPerDay * DayFromYear y.

(** ECMAScript: the largest integer [y] such that [TimeFromYear y <= t].
    Computed from the mean length of a Gregorian year (146097 days in 400
    years), which is off by at most one year; [YearFromTime_spec] below
    proves the defining property. *)
Definition YearFromTime (t : Z) : Z :=
  let d := Day t in
  let y0 := 1970 + (400 * d) / 146097 in
  if DayFromYear (y0 + 1) <=? d then y0 + 1
  else if DayFromYear y0 <=? d then y0
  else y0 - 1.

Definition LeapDays (y : Z) : Z := DaysInYear y - 365.
Definition InLeapYear (t : Z) : Z := LeapDays (YearFromTime t).

Definition DayWithinYear (t : Z) : Z := Day t - DayFromYear (YearFromTime t).

(** Day within the year on which month [m] (0 = January) begins. *)
Definition MonthStart (leap m : Z) : Z :=
  match m with
  | 0 => 0
  | 1 => 31
  | 2 => 59 + leap
  | 3 => 90 + leap
  | 4 => 120 + leap
  | 5 => 151 + leap
  | 6 => 181 + leap
  | 7 => 212 + leap
  | 8 => 243 + leap
  | 9 => 273 + leap
  | 10 => 304 + leap
  | _ => 334 + leap
  end.

Definition MonthFromTime (t : Z) : Z :=
  let d := DayWithinYear t in
  let leap := InLeapYear t in
  if d <? 31 then 0
  else if d <? 59 + leap then 1
  else if d <? 90 + leap then 2
  else if d <? 120 + leap then 3
  else if d <? 151 + leap then 4
  else if d <? 181 + leap then 5
  else if d <? 212 + leap then 6
  else if d <? 243 + leap then 7
  else if d <? 273 + leap then 8
  else if d <? 304 + leap then 9
  else if d <? 334 + leap then 10
  else 11.

Definition DateFromTime (t : Z) : Z :=
  DayWithinYear t - MonthStart (InLeapYear t) (MonthFromTime t) + 1.

(** ECMAScript [MakeDay]: the day number of the first of month
    [month mod 12] in year [year + floor (month / 12)], plus [date - 1].
    Nothing bounds [date]: days past the end of the month run on into the
    following months. *)
Definition MakeDay (year month date : Z) : Z :=
  let ym := year + month / 12 in
  let mn := month mod 12 in
  DayFromYear ym + MonthStart (LeapDays ym) mn + date - 1.

Definition MakeDate (day time : Z) : Z := day * msPerDay + time.

(** Number of days of month [m] of year [y]. *)
Definition DaysInMonth (y m : Z) : Z :=
  match m with
  | 1 => 28 + LeapDays y
  | 3 | 5 | 8 | 10 => 30
  | _ => 31
  end.

(** *** Date objects *)

Record Date := mkDate { getTime : Z }.

Section LocalZone.
Variable h : Host.

Definition LocalTime (t : Z) : Z := t + LocalTZA h.
Definition UTC (t : Z) : Z := t - LocalTZA h.

Definition getFullYear (d : Date) : Z := YearFromTime (LocalTime (getTime d)).
Definition getMonth (d : Date) : Z := MonthFromTime (LocalTime (getTime d)).
Definition getDate (d : Date) : Z := DateFromTime (LocalTime (getTime d)).

(** The setters mutate the receiver; here they return its new state. *)
Definition setMonth (d : Date) (month : Z) : Date :=
  let t := LocalTime (getTime d) in
  mkDate (UTC (MakeDate (MakeDay (YearFromTime t) month (DateFromTime t))
                        (TimeWithinDay t))).

Definition setFullYear (d : Date) (year : Z) : Date :=
  let t := LocalTime (getTime d) in
  mkDate (UTC (MakeDate (MakeDay year (MonthFromTime t) (DateFromTime t))
                        (TimeWithinDay t))).

Definition setDate (d : Date) (date : Z) : Date :=
  let t := LocalTime (getTime d) in
  mkDate (UTC (MakeDate (MakeDay (YearFromTime t) (MonthFromTime t) date)
                        (TimeWithinDay t))).

(** [new Date(year, month, date)]: local midnight of a calendar day. *)
Definition localDate (year month date : Z) : Date :=
  mkDate (UTC (MakeDate (MakeDay year month date) 0)).

(** [new Date()] *)
Definition newDate : Date := mkDate (currentTime h).
End LocalZone.

(** [a <= b], [a > b] on Date objects compare the time values. *)
Definition leb (a b : Date) : bool := getTime a <=? getTime b.
Definition gtb (a b : Date) : bool := getTime b <? getTime a.

End JSDate.

Import JSDate.

(** ** Numbers *)

(** The binary64 value of an integer-valued Number. *)
Definition Z2F (z : Z) : float := SF2Prim (binary_normalize prec emax z 0 false).

(** The rounding of a quotient [q] with remainder [r] by [ulp]: to nearest,
    ties to even. *)
Definition nearestEven (ulp q r : Z) : Z :=
  match 2 * r ?= ulp with
  | Lt => q
  | Gt => q + 1
  | Eq => if Z.even q then q else q + 1
  end.

(** The binary64 value of an integer, as an integer: the integer itself up
    to 2^53 in magnitude, beyond that the integer rounded to 53 significant
    bits.  (No integer here comes near 2^1024, where binary64 overflows.)
    Below 2^54 it is the integer that [Z2F] denotes ([Z2F_integral]), and
    the binary64 difference of two integers below 2^53 is the rounding of
    their difference ([sub_integers]). *)
Definition round53 (z : Z) : Z :=
  let e := Z.log2 (Z.abs z) - 52 in
  if e <=? 0 then z
  else
    let ulp := 2 ^ e in
    Z.sgn z * (nearestEven ulp (Z.abs z / ulp) (Z.abs z mod ulp) * ulp).

(** A non-zero finite binary64 value. *)
Definition finite_nonzero (x : float) : bool :=
  match Prim2SF x with
  | S754_finite _ _ _ => true
  | _ => false
  end.

(** [x] is Infinity, -Infinity or NaN. *)
Definition not_finite (x : float) : bool :=
  match Prim2SF x with
  | S754_infinity _ | S754_nan => true
  | _ => false
  end.

(** ** Outcomes: a call returns a value or throws *)

Inductive JSError := TypeError.

Inductive Outcome (A : Type) :=
| Returned (a : A)
| Thrown (e : JSError).
Arguments Returned {A} a.
Arguments Thrown {A} e.

(** [a[i]] followed by a property read: the element when it exists, a
    [TypeError] when [a[i]] is [undefined]. *)
Definition element {A : Type} (a : list A) (i : nat) : Outcome A :=
  match nth_error a i with
  | Some x => Returned x
  | None => Thrown TypeError
  end.

Notation "x <- c1 ;; c2" :=
  (match c1 with
   | Returned x => c2
   | Thrown e => Thrown e
   end)
  (at level 61, c1 at next level, right associativity).

(** ** src/types *)

Record DataPoint := mkDataPoint { date : Date; value : float }.

Record ProcessedData := mkProcessedData {
  filteredData : list DataPoint;
  startDate : option Date;
  endDate : option Date;
  startValue : option float;
  endValue : option float;
  returnValue : option float;
  isAnnualized : bool;
  inceptionStartDate : option Date;
  inceptionStartValue : option float
}.

Inductive Period :=
| P1m | P3m | Pytd | P1y | P3y | P5y | P10y | P15y | P20y | Psi | Pcustom.

Module CustomPeriod.
Record t := mk { startDate : Date; endDate : Date }.
End CustomPeriod.

(** ** src/utils/dateUtils.ts *)

Section DateUtils.
Variable h : Host.

Definition calculateYearFrac (startDate endDate : Date) : float :=
  let '(startDate, endDate) :=
    if gtb startDate endDate then (endDate, startDate) else (startDate, endDate) in
  let startYear := getFullYear h startDate in
  let startMonth := getMonth h startDate + 1 in
  let startDay := getDate h startDate in
  let endYear := getFullYear h endDate in
  let endMonth := getMonth h endDate + 1 in
  let endDay := getDate h endDate in
  let startDay := if startDay =? 31 then 30 else startDay in
  let endDay := if (endDay =? 31) && (30 <=? startDay) then 30 else endDay in
  let days :=
    (endYear - startYear) * 360 + (endMonth - startMonth) * 30 + (endDay - startDay) in
  (Z2F days / 360)%float.

(** The loop of [findClosestDate], from index 1 on: [closestDate] and
    [minDifference] are the loop's two variables, [dates] what is left to
    scan.  [a.getTime() - b.getTime()] is a subtraction of binary64 numbers:
    the difference of the two time values, rounded ([round53]).  The
    comparison of two such differences is the one the primitive floats make
    ([timeDifference_binary64]). *)
Fixpoint scanClosest (targetDate closestDate : Date) (minDifference : Z)
    (dates : list Date) : Date :=
  match dates with
  | [] => closestDate
  | currentDate :: rest =>
      let difference := Z.abs (round53 (getTime currentDate - getTime targetDate)) in
      if difference <? minDifference
      then scanClosest targetDate currentDate difference rest
      else scanClosest targetDate closestDate minDifference rest
  end.

Definition findClosestDate (targetDate : Date) (dates : list Date) : option Date :=
  match dates with
  | [] => None
  | first :: rest =>
      Some (scanClosest targetDate first
              (Z.abs (round53 (getTime first - getTime targetDate))) rest)
  end.

Definition calculateStartDate (period : Period) (endDate : Date) : Date :=
  let startDate := endDate in
  match period with
  | P1m => setMonth h startDate (getMonth h endDate - 1)
  | P3m => setMonth h startDate (getMonth h endDate - 3)
  | Pytd => setDate h (setMonth h startDate 0) 1
  | P1y => setFullYear h startDate (getFullYear h endDate - 1)
  | P3y => setFullYear h startDate (getFullYear h endDate - 3)
  | P5y => setFullYear h startDate (getFullYear h endDate - 5)
  | P10y => setFullYear h startDate (getFullYear h endDate - 10)
  | P15y => setFullYear h startDate (getFullYear h endDate - 15)
  | P20y => setFullYear h startDate (getFullYear h endDate - 20)
  | Psi | Pcustom => mkDate 0
  end.

End DateUtils.

(** ** src/utils/dataProcessor.ts *)

(** [[...data].sort((a, b) => a.date.getTime() - b.date.getTime())].
    [Array.prototype.sort] is stable and the comparator orders by time value
    (binary64 rounds a large difference, which keeps its sign:
    [round53_sgn]), so the result is the one stable arrangement by date;
    insertion from the right, placing an element before the first one that
    does not precede it, computes it. *)
Fixpoint insertByDate (a : DataPoint) (sorted : list DataPoint) : list DataPoint :=
  match sorted with
  | [] => [a]
  | b :: rest =>
      if getTime (date a) - getTime (date b) <=? 0 then a :: sorted
      else b :: insertByDate a rest
  end.

Definition sortByDate (data : list DataPoint) : list DataPoint :=
  fold_right insertByDate [] data.

Definition emptyResult : ProcessedData :=
  {| filteredData := [];
     startDate := None;
     endDate := None;
     startValue := None;
     endValue := None;
     returnValue := None;
     isAnnualized := false;
     inceptionStartDate := None;
     inceptionStartValue := None |}.

Section DataProcessor.
Variable h : Host.

Definition processData (data : list DataPoint) (selectedPeriod : Period)
    (customPeriod : option CustomPeriod.t) : Outcome ProcessedData :=
  match data with
  | [] => Returned emptyResult
  | _ :: _ =>
  (* Step 1 *)
  let sortedData := sortByDate data in
  (* Step 2 *)
  let today := newDate h in
  match find (fun item => leb (date item) today) (rev sortedData) with
  | None => Returned emptyResult
  | Some latestData =>
  (* Step 3 *)
  range <-
    match selectedPeriod, customPeriod with
    | Pcustom, Some customPeriod =>
        Returned (CustomPeriod.endDate customPeriod,
                  CustomPeriod.startDate customPeriod)
    | _, _ =>
        let endDate := date latestData in
        match selectedPeriod with
        | Psi => first <- element sortedData 0 ;; Returned (endDate, date first)
        | _ => Returned (endDate, calculateStartDate h selectedPeriod endDate)
        end
    end ;;
  let '(endDate, targetStartDate) := range in
  (* Step 4 *)
  let allDates := map date sortedData in
  match findClosestDate targetStartDate allDates,
        findClosestDate endDate allDates with
  | Some closestStartDate, Some closestEndDate =>
  (* Step 5 *)
  let filteredData :=
    filter (fun item => leb closestStartDate (date item)
                        && leb (date item) closestEndDate) sortedData in
  (* Step 6 *)
  startDataPoint <- element filteredData 0 ;;
  endDataPoint <- element filteredData (length filteredData - 1) ;;
  let startValue := value startDataPoint in
  let endValue := value endDataPoint in
  (* Step 7 *)
  let isAnnualized :=
    match selectedPeriod with
    | Pcustom => (1 <=? calculateYearFrac h closestStartDate closestEndDate)%float
    | P1y | P3y | P5y | P10y | P15y | P20y | Psi => true
    | P1m | P3m | Pytd => false
    end in
  (* Step 8 *)
  let returnValue :=
    if isAnnualized then
      let years := calculateYearFrac h closestStartDate closestEndDate in
      if (1 / 12 <=? years)%float
      then (Math_pow h (endValue / startValue) (1 / years) - 1)%float
      else (endValue / startValue - 1)%float
    else (endValue / startValue - 1)%float in
  (* Step 9 *)
  inception <- element sortedData 0 ;;
  let inceptionStartDate := date inception in
  let inceptionStartValue := value inception in
  (* Step 10 *)
  Returned {| filteredData := filteredData;
              startDate := Some closestStartDate;
              endDate := Some closestEndDate;
              startValue := Some startValue;
              endValue := Some endValue;
              returnValue := Some returnValue;
              isAnnualized := isAnnualized;
              inceptionStartDate := Some inceptionStartDate;
              inceptionStartValue := Some inceptionStartValue |}
  | _, _ => Returned emptyResult
  end
  end
  end.

End DataProcessor.

(** ** src/components/ChartDisplay.tsx: the data handed to the chart *)

Module ChartPoint.
Record t := mk {
  date : Z;
  value : float;
  actualValue : float;
  indexedValue : float;
  annualizedReturnSinceInception : float
}.
End ChartPoint.

(** What the component renders: the "no data" message, or the line chart over
    [chartData].  The axis range and the markup are not modelled. *)
Inductive Rendered :=
| NoDataMessage
| Chart (chartData : list ChartPoint.t).

Section ChartComponent.
Variable h : Host.

Definition ChartDisplay (data fullDataset : list DataPoint) : Outcome Rendered :=
  match data with
  | [] => Returned NoDataMessage
  | first :: _ =>
  (* Step 1 *)
  let selectedPeriodStartValue := value first in
  (* Step 2 *)
  let sortedFullDataset := sortByDate fullDataset in
  inception <- element sortedFullDataset 0 ;;
  let inceptionStartValue := value inception in
  let inceptionStartDate := date inception in
  (* Step 3 *)
  let chartData :=
    map (fun point =>
      let indexedValue := (value point / selectedPeriodStartValue * 100)%float in
      let yearsFromInception := calculateYearFrac h inceptionStartDate (date point) in
      let annualizedReturnSinceInception :=
        if (1 / 12 <=? yearsFromInception)%float
        then (Math_pow h (value point / inceptionStartValue)
                         (1 / yearsFromInception) - 1)%float
        else (value point / inceptionStartValue - 1)%float in
      {| ChartPoint.date := getTime (date point);
         ChartPoint.value := indexedValue;
         ChartPoint.actualValue := value point;
         ChartPoint.indexedValue := indexedValue;
         ChartPoint.annualizedReturnSinceInception :=
           annualizedReturnSinceInception |}) data in
  Returned (Chart chartData)
  end.

End ChartComponent.

(** ** src/components/ResultsDisplay.tsx: what the results panel shows *)

(** What the results panel shows; the formatting of dates and numbers into
    strings is not modelled. *)
Record ResultsCards := mkResultsCards {
  shownStartDate : Date;
  shownEndDate : Date;
  shownStartValue : float;
  shownEndValue : float;
  shownReturn : float;
  (** [returnValue >= 0]: the return is printed in green, else in red *)
  returnIsGain : bool;
  absoluteChange : float;
  (** [absoluteChange >= 0] *)
  changeIsGain : bool;
  (** the heading reads "Annualized Return (CAGR)" rather than "Period Return" *)
  headedAnnualized : bool
}.

Inductive ResultsView :=
| NoResultsMessage
| Cards (cards : ResultsCards).

Definition ResultsDisplay (startDate endDate : option Date)
    (startValue endValue returnValue : option float) (isAnnualized : bool)
    : ResultsView :=
  match startDate, endDate, startValue, endValue, returnValue with
  | Some startDate, Some endDate, Some startValue, Some endValue, Some returnValue =>
      let absoluteChange := (endValue - startValue)%float in
      Cards {| shownStartDate := startDate;
               shownEndDate := endDate;
               shownStartValue := startValue;
               shownEndValue := endValue;
               shownReturn := returnValue;
               returnIsGain := (0 <=? returnValue)%float;
               absoluteChange := absoluteChange;
               changeIsGain := (0 <=? absoluteChange)%float;
               headedAnnualized := isAnnualized |}
  | _, _, _, _, _ => NoResultsMessage
  end.

(** ** src/App.tsx *)

(** [App]: the results panel for a record of [processData]. *)
Definition resultsOf (r : ProcessedData) : ResultsView :=
  ResultsDisplay (startDate r) (endDate r) (startValue r) (endValue r)
    (returnValue r) (isAnnualized r).

(** [App.handleDataUpload]: the custom period after an upload spans the
    uploaded array from its first to its last element; an empty upload leaves
    it as it was. *)
Definition handleDataUpload (uploadedData : list DataPoint)
    (customPeriod : CustomPeriod.t) : CustomPeriod.t :=
  match uploadedData with
  | [] => customPeriod
  | first :: _ =>
      {| CustomPeriod.startDate := date first;
         CustomPeriod.endDate := date (last uploadedData first) |}
  end.

(** ** Vocabulary of the statements *)

(** Calendar days as (year, month from 0, day of month). *)
Definition civil (t : Z) : Z * Z * Z :=
  (YearFromTime t, MonthFromTime t, DateFromTime t).

(** [MakeDay] past the end of a month: the surplus days fall in the next
    month. *)
Definition rollDay (c : Z * Z * Z) : Z * Z * Z :=
  let '(y, m, d) := c in
  if d <=? DaysInMonth y m then (y, m, d) else (y, m + 1, d - DaysInMonth y m).

(** The local calendar day of a [Date], and its local time of day. *)
Definition ymd (h : Host) (d : Date) : Z * Z * Z :=
  (getFullYear h d, getMonth h d, getDate h d).

Definition timeOfDay (h : Host) (d : Date) : Z :=
  TimeWithinDay (LocalTime h (getTime d)).





(** A spec float that is +0, a positive finite number or +Infinity. *)
Definition nonnegSF (s : spec_float) : bool :=
  match s with
  | S754_zero false | S754_finite false _ _ | S754_infinity false => true
  | _ => false
  end.

(** A time value in the range of a [Date]: at most 10^8 days from the
    epoch. *)
Definition inTimeRange (d : Date) : Prop :=
  Z.abs (getTime d) <= 8640000000000000.

(** A zone within a day of UTC. *)
Definition plausibleZone (h : Host) : Prop := Z.abs (LocalTZA h) <= msPerDay.

(** Chronological order on samples and on dates. *)
Definition notAfter (a b : DataPoint) : Prop := getTime (date a) <= getTime (date b).
Definition chronological (l : list DataPoint) : Prop := StronglySorted notAfter l.

(** Distance in milliseconds between a candidate and the target. *)
Definition distance (targetDate d : Date) : Z := Z.abs (getTime d - getTime targetDate).

(** The same distance as [findClosestDate] computes it, in binary64. *)
Definition timeDifference (targetDate d : Date) : Z :=
  Z.abs (round53 (getTime d - getTime targetDate)).

(** Every candidate is at most 2^53 milliseconds (some 285,000 years) from
    the target, so that binary64 holds each distance exactly. *)
Definition exactDifferences (targetDate : Date) (dates : list Date) : Prop :=
  forall d, In d dates -> distance targetDate d <= 2 ^ 53.

(** The predicate of Step 5. *)
Definition inWindow (closestStartDate closestEndDate : Date) (item : DataPoint) : bool :=
  leb closestStartDate (date item) && leb (date item) closestEndDate.

(** The target range of Step 3. *)
Definition targetRange (h : Host) (sortedData : list DataPoint) (latestData : DataPoint)
    (selectedPeriod : Period) (customPeriod : option CustomPeriod.t)
    : Outcome (Date * Date) :=
  match selectedPeriod, customPeriod with
  | Pcustom, Some customPeriod =>
      Returned (CustomPeriod.endDate customPeriod,
                CustomPeriod.startDate customPeriod)
  | _, _ =>
      let endDate := date latestData in
      match selectedPeriod with
      | Psi => first <- element sortedData 0 ;; Returned (endDate, date first)
      | _ => Returned (endDate, calculateStartDate h selectedPeriod endDate)
      end
  end.

(** The decision of Step 7. *)
Definition annualizes (h : Host) (p : Period) (cs ce : Date) : bool :=
  match p with
  | Pcustom => (1 <=? calculateYearFrac h cs ce)%float
  | P1y | P3y | P5y | P10y | P15y | P20y | Psi => true
  | P1m | P3m | Pytd => false
  end.

(** The return of Step 8. *)
Definition returnFor (h : Host) (annualized : bool) (cs ce : Date) (sv ev : float) : float :=
  if annualized then
    let years := calculateYearFrac h cs ce in
    if (1 / 12 <=? years)%float
    then (Math_pow h (ev / sv) (1 / years) - 1)%float
    else (ev / sv - 1)%float
  else (ev / sv - 1)%float.

(** The record of Step 10. *)
Definition resolution (h : Host) (sorted : list DataPoint) (p : Period)
    (cs ce : Date) (first last inception : DataPoint) : ProcessedData :=
  {| filteredData := filter (inWindow cs ce) sorted;
     startDate := Some cs;
     endDate := Some ce;
     startValue := Some (value first);
     endValue := Some (value last);
     returnValue :=
       Some (returnFor h (annualizes h p cs ce) cs ce (value first) (value last));
     isAnnualized := annualizes h p cs ce;
     inceptionStartDate := Some (date inception);
     inceptionStartValue := Some (value inception) |}.

(** A stand-in for [Math.pow] in worked examples: exact on the exponents the
    examples use (1, 2 and one half), NaN elsewhere. *)
Definition examplePow (x y : float) : float :=
  if (y =? 1)%float then x
  else if (y =? 2)%float then (x * x)%float
  else if (y =? 0.5)%float then sqrt x
  else nan.

(** A host in the UTC zone whose clock reads 2026-01-01T00:00:00Z. *)
Definition utcHost : Host :=
  {| LocalTZA := 0; currentTime := 1767225600000; Math_pow := examplePow |}.

(** The sample of value [v] at local midnight of a calendar day. *)
Definition sample (h : Host) (y m d : Z) (v : float) : DataPoint :=
  {| date := localDate h y m d; value := v |}.

(** Some sample is dated at or before the wall clock's reading. *)
Definition usable (h : Host) (data : list DataPoint) : Prop :=
  exists q, In q data /\ getTime (date q) <= currentTime h.

(** A preset, or a custom period whose start is not after its end. *)
Definition orderedPeriod (p : Period) (cp : option CustomPeriod.t) : Prop :=
  match p, cp with
  | Pcustom, Some c =>
      getTime (CustomPeriod.startDate c) <= getTime (CustomPeriod.endDate c)
  | Pcustom, None => False
  | _, _ => True
  end.

(** The two dates of a custom period are at most 2^53 milliseconds from
    every sample.  The presets ask for nothing. *)
Definition measurablePeriod (data : list DataPoint) (p : Period)
    (cp : option CustomPeriod.t) : Prop :=
  match p, cp with
  | Pcustom, Some c =>
      exactDifferences (CustomPeriod.startDate c) (map date data)
      /\ exactDifferences (CustomPeriod.endDate c) (map date data)
  | _, _ => True
  end.

(** The host of [utcHost] with the clock reading 2019-01-01T00:00:00Z. *)
Definition earlyHost : Host :=
  {| LocalTZA := 0; currentTime := 1546300800000; Math_pow := examplePow |}.

(** Three samples, not in order: 2020-06-01 at 110, 2020-01-01 at 100 and
    2021-01-01 at 121. *)
Definition seriesA : list DataPoint :=
  [sample utcHost 2020 5 1 110; sample utcHost 2020 0 1 100;
   sample utcHost 2021 0 1 121].

(** What [processData] makes of [seriesA] over one year. *)
Definition seriesA_1y : ProcessedData :=
  {| filteredData :=
       [sample utcHost 2020 0 1 100; sample utcHost 2020 5 1 110;
        sample utcHost 2021 0 1 121];
     startDate := Some (localDate utcHost 2020 0 1);
     endDate := Some (localDate utcHost 2021 0 1);
     startValue := Some 100%float;
     endValue := Some 121%float;
     returnValue := Some (121 / 100 - 1)%float;
     isAnnualized := true;
     inceptionStartDate := Some (localDate utcHost 2020 0 1);
     inceptionStartValue := Some 100%float |}.

(** The custom period from 2020-01-01 to 2021-01-01. *)
Definition wholeYearCustom : CustomPeriod.t :=
  CustomPeriod.mk (localDate utcHost 2020 0 1) (localDate utcHost 2021 0 1).

(** A custom period whose start (2020-06-01) is after its end (2020-01-01). *)
Definition reversedCustom : CustomPeriod.t :=
  CustomPeriod.mk (localDate utcHost 2020 5 1) (localDate utcHost 2020 0 1).

(** Two samples, the first of value 0: 2020-01-01 at 0, 2020-02-01 at 110. *)
Definition seriesZero : list DataPoint :=
  [sample utcHost 2020 0 1 0; sample utcHost 2020 1 1 110].


(** No two samples carry the same date. *)
Definition distinctDates (data : list DataPoint) : Prop :=
  NoDup (map (fun q => getTime (date q)) data).

(** Strictly earlier. *)
Definition before (a b : DataPoint) : Prop := getTime (date a) < getTime (date b).

(** The earliest and the latest instant a [Date] can hold, and the
    millisecond before the latest. *)
Definition earliestDate : Date := mkDate (-8640000000000000).
Definition latestDate : Date := mkDate 8640000000000000.
Definition nextToLatestDate : Date := mkDate 8639999999999999.

(** A shift record with nothing shifted out. *)
Definition exactly (m : Z) : shr_record :=
  {| shr_m := m; shr_r := false; shr_s := false |}.

(** The second half of [binary_round_aux]: the rounded mantissa may have
    gained a bit. *)
Definition renormalize (s : bool) (m e : Z) : spec_float :=
  let '(mrs, e') := shr_fexp prec emax m e loc_Exact in
  match shr_m mrs with
  | 0 => S754_zero s
  | Z.pos m => if e' <=? emax - prec then S754_finite s m e' else S754_infinity s
  | Z.neg _ => S754_nan
  end.

(** The binary64 number of sign [s] and magnitude the integer [v]: a
    mantissa of 53 bits and the exponent that goes with it. *)
Definition canonical (s : bool) (v : Z) (x : spec_float) : Prop :=
  exists m e,
    x = S754_finite s m e
    /\ Z.log2 (Z.pos m) = 52 /\ -52 <= e <= 2
    /\ Z.pos m * 2 ^ (e + 52) = v * 2 ^ 52.

(** The binary64 number that is the integer [v]. *)
Definition integral (v : Z) (x : spec_float) : Prop :=
  (v = 0 /\ x = S754_zero false) \/ (v <> 0 /\ canonical (v <? 0) (Z.abs v) x).

(** * Supporting lemmas *)

(** ** Calendar arithmetic *)

Lemma LeapDays_cases y : LeapDays y = 0 \/ LeapDays y = 1.
Proof.
  unfold LeapDays, DaysInYear.
  destruct (y mod 4 =? 0), (y mod 100 =? 0), (y mod 400 =? 0); cbn; lia.
Qed.

Lemma DayFromYear_succ y : DayFromYear (y + 1) = DayFromYear y + 365 + LeapDays y.
Proof.
  unfold LeapDays, DayFromYear, DaysInYear.
  destruct (Z.eqb_spec (y mod 4) 0), (Z.eqb_spec (y mod 100) 0),
    (Z.eqb_spec (y mod 400) 0); cbn [negb]; lia.
Qed.

Lemma DayFromYear_lt a b : a < b -> DayFromYear a < DayFromYear b.
Proof. unfold DayFromYear. lia. Qed.

Lemma DayFromYear_le a b : a <= b -> DayFromYear a <= DayFromYear b.
Proof. unfold DayFromYear. lia. Qed.

Lemma YearFromTime_spec t :
  DayFromYear (YearFromTime t) <= Day t < DayFromYear (YearFromTime t + 1).
Proof.
  unfold YearFromTime.
  set (d := Day t). set (y0 := 1970 + 400 * d / 146097).
  destruct (Z.leb_spec (DayFromYear (y0 + 1)) d) as [E1|E1].
  - split; [exact E1|]. unfold DayFromYear in *. subst y0. lia.
  - destruct (Z.leb_spec (DayFromYear y0) d) as [E0|E0].
    + lia.
    + replace (y0 - 1 + 1) with y0 by lia. split; [|exact E0].
      unfold DayFromYear in *. subst y0. lia.
Qed.

Lemma YearFromTime_unique t y :
  DayFromYear y <= Day t < DayFromYear (y + 1) -> YearFromTime t = y.
Proof.
  intros Hy. pose proof (YearFromTime_spec t) as Hs.
  destruct (Z.lt_trichotomy (YearFromTime t) y) as [L|[E|G]]; [|exact E|].
  - pose proof (DayFromYear_le (YearFromTime t + 1) y ltac:(lia)). lia.
  - pose proof (DayFromYear_le (y + 1) (YearFromTime t) ltac:(lia)). lia.
Qed.

Lemma DayWithinYear_range t :
  0 <= DayWithinYear t < 365 + InLeapYear t.
Proof.
  unfold DayWithinYear, InLeapYear.
  pose proof (YearFromTime_spec t) as Hs.
  rewrite DayFromYear_succ in Hs. lia.
Qed.

Lemma Day_MakeDate day time :
  0 <= time < msPerDay ->
  Day (MakeDate day time) = day /\ TimeWithinDay (MakeDate day time) = time.
Proof.
  unfold Day, TimeWithinDay, MakeDate, msPerDay. intros. lia.
Qed.

Lemma MakeDate_Day t : MakeDate (Day t) (TimeWithinDay t) = t.
Proof. unfold Day, TimeWithinDay, MakeDate, msPerDay. lia. Qed.

Lemma TimeWithinDay_range t : 0 <= TimeWithinDay t < msPerDay.
Proof. unfold TimeWithinDay, msPerDay. lia. Qed.

Ltac month_cases m :=
  assert (m = 0 \/ m = 1 \/ m = 2 \/ m = 3 \/ m = 4 \/ m = 5 \/ m = 6 \/ m = 7
          \/ m = 8 \/ m = 9 \/ m = 10 \/ m = 11) as Hcases by lia;
  destruct Hcases as [->|[->|[->|[->|[->|[->|[->|[->|[->|[->|[->| ->]]]]]]]]]]].

Ltac split_ltb :=
  repeat match goal with
         | |- context [?a <? ?b] => destruct (Z.ltb_spec a b)
         end.

(** Month and day of month of a day within the year. *)
Lemma month_date_of_day leap dwy :
  (leap = 0 \/ leap = 1) -> 0 <= dwy < 365 + leap ->
  let m :=
    if dwy <? 31 then 0
    else if dwy <? 59 + leap then 1
    else if dwy <? 90 + leap then 2
    else if dwy <? 120 + leap then 3
    else if dwy <? 151 + leap then 4
    else if dwy <? 181 + leap then 5
    else if dwy <? 212 + leap then 6
    else if dwy <? 243 + leap then 7
    else if dwy <? 273 + leap then 8
    else if dwy <? 304 + leap then 9
    else if dwy <? 334 + leap then 10
    else 11 in
  0 <= m <= 11 /\
  MonthStart leap m <= dwy < MonthStart leap m + (match m with 1 => 28 + leap | 3 | 5 | 8 | 10 => 30 | _ => 31 end).
Proof.
  intros Hl Hd. cbv zeta. split_ltb; cbv beta iota delta [MonthStart]; lia.
Qed.

Lemma components_valid t :
  let y := YearFromTime t in
  let m := MonthFromTime t in
  let d := DateFromTime t in
  0 <= m <= 11 /\ 1 <= d <= DaysInMonth y m /\ Day t = MakeDay y m d.
Proof.
  intros y m d.
  pose proof (DayWithinYear_range t) as Hr.
  pose proof (LeapDays_cases (YearFromTime t)) as Hl.
  pose proof (month_date_of_day (InLeapYear t) (DayWithinYear t) Hl Hr) as Hm.
  cbv zeta in Hm. fold (MonthFromTime t) in Hm. fold m in Hm.
  destruct Hm as [Hm1 Hm2].
  split; [exact Hm1|].
  assert (Hdim : DaysInMonth y m = match m with 1 => 28 + InLeapYear t | 3 | 5 | 8 | 10 => 30 | _ => 31 end) by reflexivity.
  subst d. unfold DateFromTime. fold m. split; [lia|].
  unfold MakeDay.
  replace (m / 12) with 0 by lia. replace (m mod 12) with m by lia.
  rewrite Z.add_0_r. fold y. unfold InLeapYear in *. fold y in Hm2 |- *.
  unfold DayWithinYear. fold y. lia.
Qed.

Lemma DaysInMonth_range y m : 28 <= DaysInMonth y m <= 31.
Proof.
  pose proof (LeapDays_cases y).
  unfold DaysInMonth.
  destruct m as [|p|p]; try lia.
  do 4 (destruct p as [p|p|]; try lia).
Qed.

Lemma MakeDay_month_in_range y m d :
  0 <= m <= 11 -> MakeDay y m d = DayFromYear y + MonthStart (LeapDays y) m + d - 1.
Proof.
  intros Hm. unfold MakeDay.
  replace (m / 12) with 0 by lia. replace (m mod 12) with m by lia.
  now rewrite Z.add_0_r.
Qed.

Ltac eval_consts :=
  repeat match goal with
         | |- context [Z.pos ?a + Z.pos ?b] =>
             let v := eval vm_compute in (Z.pos a + Z.pos b) in
             change (Z.pos a + Z.pos b) with v
         | |- context [0 + Z.pos ?b] => change (0 + Z.pos b) with (Z.pos b)
         end.

(** A valid calendar day is recovered from the time value built from it. *)
Lemma components_MakeDate y m d time :
  0 <= m <= 11 -> 1 <= d <= DaysInMonth y m -> 0 <= time < msPerDay ->
  let t := MakeDate (MakeDay y m d) time in
  YearFromTime t = y /\ MonthFromTime t = m /\ DateFromTime t = d
  /\ TimeWithinDay t = time.
Proof.
  intros Hm Hd Ht t.
  destruct (Day_MakeDate (MakeDay y m d) time Ht) as [HD HT]. fold t in HD, HT.
  pose proof (LeapDays_cases y) as Hl.
  rewrite MakeDay_month_in_range in HD by exact Hm.
  assert (HY : YearFromTime t = y).
  { apply YearFromTime_unique. rewrite DayFromYear_succ, HD.
    revert Hd. month_cases m; cbv beta iota delta [MonthStart DaysInMonth]; lia. }
  assert (HW : DayWithinYear t = MonthStart (LeapDays y) m + d - 1).
  { unfold DayWithinYear. rewrite HY, HD. lia. }
  assert (HM : MonthFromTime t = m).
  { unfold MonthFromTime, InLeapYear. rewrite HY, HW.
    revert Hd. month_cases m; cbv beta iota delta [MonthStart DaysInMonth];
      intros Hd; split_ltb; lia. }
  repeat split; try assumption.
  unfold DateFromTime, InLeapYear. rewrite HM, HY, HW. lia.
Qed.

Lemma civil_MakeDay y month d time :
  1 <= d <= 31 -> 0 <= time < msPerDay ->
  let t := MakeDate (MakeDay y month d) time in
  civil t = rollDay (y + month / 12, month mod 12, d) /\ TimeWithinDay t = time.
Proof.
  intros Hd Ht t. unfold rollDay.
  set (ym := y + month / 12). set (mn := month mod 12).
  assert (Hmn : 0 <= mn <= 11) by (subst mn; lia).
  assert (HMD : MakeDay y month d = MakeDay ym mn d).
  { rewrite (MakeDay_month_in_range ym mn) by exact Hmn. reflexivity. }
  destruct (Z.leb_spec d (DaysInMonth ym mn)) as [Hle|Hgt].
  - destruct (components_MakeDate ym mn d time Hmn ltac:(lia) Ht) as (A & B & C & D).
    subst t. rewrite HMD. unfold civil. rewrite A, B, C. auto.
  - pose proof (LeapDays_cases ym) as Hl.
    assert (Hnext : 0 <= mn + 1 <= 11 /\ 1 <= d - DaysInMonth ym mn <= DaysInMonth ym (mn + 1)
                    /\ MakeDay ym mn d = MakeDay ym (mn + 1) (d - DaysInMonth ym mn)).
    { revert Hgt. clearbody mn. clear HMD.
      month_cases mn; cbv beta iota delta [DaysInMonth]; intros Hgt; try lia.
      all: rewrite !MakeDay_month_in_range by lia; eval_consts;
        cbv beta iota delta [MonthStart]; lia. }
    destruct Hnext as (H1 & H2 & H3).
    destruct (components_MakeDate ym (mn + 1) _ time H1 H2 Ht) as (A & B & C & D).
    subst t. rewrite HMD, H3. unfold civil. rewrite A, B, C. auto.
Qed.

(** ** Date getters and setters *)

Lemma LocalTime_UTC h t : LocalTime h (UTC h t) = t.
Proof. unfold LocalTime, UTC. lia. Qed.

Lemma ymd_civil h d : ymd h d = civil (LocalTime h (getTime d)).
Proof. reflexivity. Qed.

Lemma getDate_range h d : 1 <= getDate h d <= 31.
Proof.
  unfold getDate.
  destruct (components_valid (LocalTime h (getTime d))) as (_ & Hd & _).
  pose proof (DaysInMonth_range (YearFromTime (LocalTime h (getTime d)))
                (MonthFromTime (LocalTime h (getTime d)))).
  lia.
Qed.

Lemma getMonth_range h d : 0 <= getMonth h d <= 11.
Proof.
  unfold getMonth.
  destruct (components_valid (LocalTime h (getTime d))) as (Hm & _). exact Hm.
Qed.

Lemma setMonth_ymd h d month :
  ymd h (setMonth h d month)
  = rollDay (getFullYear h d + month / 12, month mod 12, getDate h d)
  /\ timeOfDay h (setMonth h d month) = timeOfDay h d.
Proof.
  unfold timeOfDay. rewrite ymd_civil. unfold setMonth. cbn [getTime].
  rewrite LocalTime_UTC.
  apply civil_MakeDay; [apply (getDate_range h d) | apply TimeWithinDay_range].
Qed.



Lemma rollDay_in_month y m d : d <= DaysInMonth y m -> rollDay (y, m, d) = (y, m, d).
Proof. intros H. unfold rollDay. destruct (Z.leb_spec d (DaysInMonth y m)); [reflexivity|lia]. Qed.

(** ** Going back in the calendar *)

Lemma MonthStart_range leap m :
  0 <= leap -> 0 <= m <= 11 -> 0 <= MonthStart leap m <= 334 + leap.
Proof. intros Hl Hm. month_cases m; cbv beta iota delta [MonthStart]; lia. Qed.

Lemma MonthStart_mono leap j m :
  0 <= leap -> 0 <= j <= m -> m <= 11 -> MonthStart leap j <= MonthStart leap m.
Proof.
  intros Hl Hj Hm.
  assert (Hj' : 0 <= j <= 11) by lia.
  month_cases j; month_cases m; cbv beta iota delta [MonthStart]; lia.
Qed.

Lemma MakeDay_norm y month d :
  MakeDay y month d = MakeDay (y + month / 12) (month mod 12) d.
Proof.
  rewrite (MakeDay_month_in_range (y + month / 12) (month mod 12)) by lia.
  reflexivity.
Qed.

(** [MakeDay] is monotone in (year, month). *)
Lemma MakeDay_le y1 m1 y2 m2 d :
  0 <= m1 <= 11 -> 0 <= m2 <= 11 ->
  y1 < y2 \/ (y1 = y2 /\ m1 <= m2) ->
  MakeDay y1 m1 d <= MakeDay y2 m2 d.
Proof.
  intros H1 H2 Hlex.
  rewrite !MakeDay_month_in_range by assumption.
  pose proof (LeapDays_cases y1) as L1. pose proof (LeapDays_cases y2) as L2.
  destruct Hlex as [Hlt|[-> Hle]].
  - pose proof (MonthStart_range (LeapDays y1) m1 ltac:(lia) H1).
    pose proof (MonthStart_range (LeapDays y2) m2 ltac:(lia) H2).
    pose proof (DayFromYear_succ y1).
    pose proof (DayFromYear_le (y1 + 1) y2 ltac:(lia)).
    lia.
  - pose proof (MonthStart_mono (LeapDays y2) m1 m2 ltac:(lia) ltac:(lia) ltac:(lia)).
    lia.
Qed.

Lemma MakeDate_le d1 d2 time : d1 <= d2 -> MakeDate d1 time <= MakeDate d2 time.
Proof. unfold MakeDate, msPerDay. lia. Qed.

Lemma local_time_split h d :
  LocalTime h (getTime d)
  = MakeDate (MakeDay (getFullYear h d) (getMonth h d) (getDate h d))
             (timeOfDay h d).
Proof.
  unfold getFullYear, getMonth, getDate, timeOfDay.
  destruct (components_valid (LocalTime h (getTime d))) as (_ & _ & <-).
  symmetry. apply MakeDate_Day.
Qed.

Lemma setMonth_earlier h d k :
  0 <= k -> getTime (setMonth h d (getMonth h d - k)) <= getTime d.
Proof.
  intros Hk. unfold setMonth. cbn [getTime]. unfold UTC.
  enough (MakeDate (MakeDay (YearFromTime (LocalTime h (getTime d)))
                     (getMonth h d - k) (DateFromTime (LocalTime h (getTime d))))
            (TimeWithinDay (LocalTime h (getTime d)))
          <= LocalTime h (getTime d)) by (unfold LocalTime in *; lia).
  eapply Z.le_trans; [|apply Z.eq_le_incl; symmetry; apply (local_time_split h d)].
  apply MakeDate_le. rewrite MakeDay_norm.
  pose proof (getMonth_range h d) as Hm.
  apply MakeDay_le; try lia.
  unfold getFullYear. lia.
Qed.

Lemma setFullYear_earlier h d k :
  0 <= k -> getTime (setFullYear h d (getFullYear h d - k)) <= getTime d.
Proof.
  intros Hk. unfold setFullYear. cbn [getTime]. unfold UTC.
  enough (MakeDate (MakeDay (getFullYear h d - k)
                     (MonthFromTime (LocalTime h (getTime d)))
                     (DateFromTime (LocalTime h (getTime d))))
            (TimeWithinDay (LocalTime h (getTime d)))
          <= LocalTime h (getTime d)) by (unfold LocalTime in *; lia).
  eapply Z.le_trans; [|apply Z.eq_le_incl; symmetry; apply (local_time_split h d)].
  apply MakeDate_le.
  pose proof (getMonth_range h d) as Hm.
  apply MakeDay_le; try exact Hm. unfold getMonth. lia.
Qed.

Lemma year_start_le h d :
  MakeDate (MakeDay (getFullYear h d) 0 1) (timeOfDay h d) - LocalTZA h
  <= getTime d.
Proof.
  pose proof (local_time_split h d) as S.
  pose proof (getMonth_range h d) as Hm. pose proof (getDate_range h d) as Hd.
  pose proof (MakeDay_le (getFullYear h d) 0 (getFullYear h d) (getMonth h d)
                (getDate h d) ltac:(lia) Hm ltac:(lia)) as HL.
  assert (H1 : MakeDay (getFullYear h d) 0 1 <= MakeDay (getFullYear h d) 0 (getDate h d)).
  { rewrite !MakeDay_month_in_range by lia. lia. }
  pose proof (MakeDate_le _ _ (timeOfDay h d) (Z.le_trans _ _ _ H1 HL)) as H2.
  unfold LocalTime in S. lia.
Qed.

Lemma setDate_getTime h d date :
  getTime (setDate h d date)
  = MakeDate (MakeDay (getFullYear h d) (getMonth h d) date) (timeOfDay h d)
    - LocalTZA h.
Proof. reflexivity. Qed.

Lemma year_start_earlier h d :
  getTime (setDate h (setMonth h d 0) 1) <= getTime d.
Proof.
  destruct (setMonth_ymd h d 0) as [A B].
  change (0 / 12) with 0 in A. change (0 mod 12) with 0 in A.
  rewrite Z.add_0_r in A.
  rewrite rollDay_in_month in A
    by (change (DaysInMonth (getFullYear h d) 0) with 31; apply getDate_range).
  unfold ymd in A. injection A as A1 A2 A3.
  rewrite setDate_getTime, A1, A2, B.
  apply year_start_le.
Qed.

(** A preset's target start is never after its end date. *)
Lemma calculateStartDate_earlier h p e :
  p <> Psi -> p <> Pcustom ->
  getTime (calculateStartDate h p e) <= getTime e.
Proof.
  intros H1 H2.
  destruct p; cbn [calculateStartDate]; try congruence.
  1-2: apply setMonth_earlier; lia.
  2-7: apply setFullYear_earlier; lia.
  apply year_start_earlier.
Qed.

(** ** binary64 division *)

Lemma div_eucl_shift m : Z.div_eucl (Z.shiftl (Z.pos m) 53) (Z.pos m) = (2 ^ 53, 0).
Proof.
  rewrite Z.shiftl_mul_pow2 by lia.
  pose proof (Z.div_eucl_eq (Z.pos m * 2 ^ 53) (Z.pos m) ltac:(lia)) as E.
  pose proof (Z.mod_pos_bound (Z.pos m * 2 ^ 53) (Z.pos m) ltac:(lia)) as B.
  unfold Z.modulo, Z.div in *.
  destruct (Z.div_eucl (Z.pos m * 2 ^ 53) (Z.pos m)) as [q r]. cbn [fst snd] in *.
  assert (r = 0 /\ q = 2 ^ 53) as [-> ->] by nia.
  reflexivity.
Qed.

Lemma SF64div_self s m e :
  SF64div (S754_finite s m e) (S754_finite s m e) = Prim2SF 1.
Proof.
  unfold SF64div, SFdiv, SFdiv_core_binary.
  replace (Zdigits2 (Z.pos m) + e - (Zdigits2 (Z.pos m) + e)) with 0 by lia.
  rewrite Z.sub_diag.
  change (Z.min (fexp prec emax 0) 0) with (-53).
  change (0 - -53) with 53.
  cbv beta iota zeta.
  rewrite div_eucl_shift.
  replace (new_location (Z.pos m) 0) with loc_Exact.
  2:{ unfold new_location, new_location_even, new_location_odd.
      destruct (Z.even (Z.pos m)); reflexivity. }
  rewrite xorb_nilpotent. reflexivity.
Qed.

(** A finite non-zero number divided by itself is exactly 1. *)
Lemma div_self x : finite_nonzero x = true -> (x / x)%float = 1%float.
Proof.
  unfold finite_nonzero. intros H.
  apply Prim2SF_inj. rewrite div_spec.
  destruct (Prim2SF x) as [| | |s m e]; try discriminate.
  apply SF64div_self.
Qed.

Lemma index_of_baseline x : finite_nonzero x = true -> (x / x * 100)%float = 100%float.
Proof. intros H. rewrite (div_self x H). reflexivity. Qed.

(** Division by zero yields an infinity or NaN, and subtracting 1 keeps it. *)
Lemma div_zero_not_finite x y :
  (y =? 0)%float = true -> not_finite (x / y - 1)%float = true.
Proof.
  rewrite eqb_spec. unfold not_finite. rewrite sub_spec, div_spec.
  change (Prim2SF 0) with (S754_zero false). change (Prim2SF 1) with (S754_finite false 4503599627370496 (-52)).
  destruct (Prim2SF y) as [sy|sy| |sy my ey]; cbn; try discriminate;
    try (destruct sy; discriminate).
  intros _. destruct (Prim2SF x) as [sx|sx| |sx mx ex]; reflexivity.
Qed.

Lemma div_zero_simple x y :
  (y =? 0)%float = true ->
  let r := (x / y - 1)%float in r = infinity \/ r = neg_infinity \/ r = nan.
Proof.
  intros H r. pose proof (div_zero_not_finite x y H) as N. fold r in N.
  unfold not_finite in N.
  destruct (Prim2SF r) as [s|s| |s m e] eqn:E; try discriminate.
  - destruct s; [right; left|left]; apply Prim2SF_inj; rewrite E; reflexivity.
  - right; right. apply Prim2SF_inj; rewrite E; reflexivity.
Qed.

(** ** Sorting by date *)

Lemma insertByDate_perm a l : Permutation (insertByDate a l) (a :: l).
Proof.
  induction l as [|b l IH]; cbn [insertByDate]; [reflexivity|].
  destruct (getTime (date a) - getTime (date b) <=? 0); [reflexivity|].
  rewrite IH. apply perm_swap.
Qed.

Lemma sortByDate_perm data : Permutation (sortByDate data) data.
Proof.
  induction data as [|a l IH]; cbn [sortByDate fold_right]; [reflexivity|].
  fold (sortByDate l). rewrite insertByDate_perm. now constructor.
Qed.

Lemma sortByDate_In data p : In p (sortByDate data) <-> In p data.
Proof.
  split; apply Permutation_in; [|symmetry]; apply sortByDate_perm.
Qed.

Lemma sortByDate_length data : length (sortByDate data) = length data.
Proof. apply Permutation_length, sortByDate_perm. Qed.

Lemma insertByDate_chronological a l :
  chronological l -> chronological (insertByDate a l).
Proof.
  unfold chronological. induction 1 as [|b l Hl IH Hb]; cbn [insertByDate].
  - repeat constructor.
  - destruct (Z.leb_spec (getTime (date a) - getTime (date b)) 0) as [Hle|Hgt].
    + constructor; [constructor; assumption|].
      constructor; [unfold notAfter; lia|].
      rewrite Forall_forall in *. intros x Hx. specialize (Hb x Hx).
      unfold notAfter in *. lia.
    + constructor; [exact IH|].
      rewrite Forall_forall in *. intros x Hx.
      apply (Permutation_in _ (insertByDate_perm a l)) in Hx.
      destruct Hx as [<-|Hx]; [unfold notAfter; lia|auto].
Qed.

Lemma sortByDate_chronological data : chronological (sortByDate data).
Proof.
  induction data as [|a l IH]; cbn [sortByDate fold_right]; [constructor|].
  apply insertByDate_chronological, IH.
Qed.

Lemma sortByDate_sorted_id data : chronological data -> sortByDate data = data.
Proof.
  unfold chronological. induction 1 as [|a l Hl IH Ha]; [reflexivity|].
  cbn [sortByDate fold_right]. fold (sortByDate l). rewrite IH.
  destruct l as [|b l']; [reflexivity|]. cbn [insertByDate].
  inversion Ha as [|? ? Hab _]; subst. unfold notAfter in Hab.
  destruct (Z.leb_spec (getTime (date a) - getTime (date b)) 0); [reflexivity|lia].
Qed.

(** ** Integers in binary64 *)

(** *** The rounding of the model *)

Lemma nearestEven_bounds ulp q r : q <= nearestEven ulp q r <= q + 1.
Proof.
  unfold nearestEven. destruct (2 * r ?= ulp); [destruct (Z.even q)| |]; lia.
Qed.

Lemma nearestEven_mono ulp q r1 r2 :
  r1 <= r2 -> nearestEven ulp q r1 <= nearestEven ulp q r2.
Proof.
  intros H. unfold nearestEven.
  destruct (Z.compare_spec (2 * r1) ulp), (Z.compare_spec (2 * r2) ulp);
    try destruct (Z.even q); lia.
Qed.

(** The binade of a number of at least 54 bits. *)
Lemma binade n :
  2 ^ 53 <= n ->
  let e := Z.log2 n - 52 in
  let ulp := 2 ^ e in
  0 < e /\ 0 < ulp /\ 2 ^ 52 <= n / ulp < 2 ^ 53.
Proof.
  intros H e ulp.
  assert (Hn : 0 < n) by lia.
  pose proof (Z.log2_spec n Hn) as [Hlo Hhi].
  assert (H53 : 53 <= Z.log2 n).
  { apply Z.log2_le_pow2; lia. }
  assert (He : 0 < e) by (subst e; lia).
  assert (Hulp : 0 < ulp) by (subst ulp; apply Z.pow_pos_nonneg; lia).
  assert (E1 : 2 ^ Z.log2 n = 2 ^ 52 * ulp).
  { subst ulp e. rewrite <- Z.pow_add_r by lia. f_equal. lia. }
  assert (E2 : 2 ^ Z.succ (Z.log2 n) = 2 ^ 53 * ulp).
  { subst ulp e. rewrite <- Z.pow_add_r by lia. f_equal. lia. }
  repeat split; try assumption.
  - apply Z.div_le_lower_bound; lia.
  - apply Z.div_lt_upper_bound; lia.
Qed.

Lemma round53_small z : Z.abs z < 2 ^ 53 -> round53 z = z.
Proof.
  intros H. unfold round53.
  destruct (Z.leb_spec (Z.log2 (Z.abs z) - 52) 0) as [_|Hgt]; [reflexivity|].
  exfalso.
  assert (Hpos : 0 < Z.abs z).
  { destruct (Z.eq_dec (Z.abs z) 0) as [E|]; [rewrite E in Hgt; cbn in Hgt|]; lia. }
  pose proof (Z.log2_spec _ Hpos) as [Hlo _].
  assert (2 ^ 53 <= 2 ^ Z.log2 (Z.abs z)) by (apply Z.pow_le_mono_r; lia).
  lia.
Qed.

Lemma round53_exact z : Z.abs z <= 2 ^ 53 -> round53 z = z.
Proof.
  intros H. destruct (Z.eq_dec (Z.abs z) (2 ^ 53)) as [E|N].
  - destruct (Z.abs_eq_or_opp z) as [A|A]; rewrite A in E.
    + rewrite E. reflexivity.
    + assert (z = - 2 ^ 53) as -> by lia. reflexivity.
  - apply round53_small. lia.
Qed.

Lemma round53_large n :
  2 ^ 53 <= n ->
  let ulp := 2 ^ (Z.log2 n - 52) in
  round53 n = nearestEven ulp (n / ulp) (n mod ulp) * ulp.
Proof.
  intros H ulp. pose proof (binade n H) as (He & _).
  unfold round53. rewrite (Z.abs_eq n) by lia.
  destruct (Z.leb_spec (Z.log2 n - 52) 0); [lia|].
  fold ulp. rewrite Z.sgn_pos by lia. lia.
Qed.

Lemma round53_abs z : Z.abs (round53 z) = round53 (Z.abs z).
Proof.
  destruct (Z.lt_ge_cases (Z.abs z) (2 ^ 53)) as [S|L].
  - rewrite (round53_small z S). rewrite round53_small; [reflexivity|lia].
  - rewrite (round53_large _ L). cbv zeta.
    pose proof (binade _ L) as (He & Hulp & Hq). cbv zeta in *.
    set (ulp := 2 ^ (Z.log2 (Z.abs z) - 52)) in *.
    pose proof (nearestEven_bounds ulp (Z.abs z / ulp) (Z.abs z mod ulp)).
    unfold round53. destruct (Z.leb_spec (Z.log2 (Z.abs z) - 52) 0); [lia|].
    fold ulp.
    set (v := nearestEven ulp (Z.abs z / ulp) (Z.abs z mod ulp) * ulp) in *.
    assert (0 <= v) by (subst v; nia).
    destruct (Z.sgn_spec z) as [[? ->]|[[? ->]|[? ->]]]; lia.
Qed.

Lemma round53_mono m n : 0 <= m <= n -> round53 m <= round53 n.
Proof.
  intros [H0 Hmn].
  destruct (Z.lt_ge_cases n (2 ^ 53)) as [Sn|Ln].
  { rewrite !round53_small by lia. exact Hmn. }
  pose proof (binade n Ln) as (Hen & Hun & Hqn). cbv zeta in *.
  rewrite (round53_large n Ln). cbv zeta.
  set (un := 2 ^ (Z.log2 n - 52)) in *.
  pose proof (nearestEven_bounds un (n / un) (n mod un)) as Bn.
  destruct (Z.lt_ge_cases m (2 ^ 53)) as [Sm|Lm].
  { rewrite round53_small by lia.
    assert (2 ^ 53 <= 2 ^ 52 * un); [|nia].
    change (2 ^ 53) with (2 ^ 52 * 2).
    assert (2 ^ 1 <= un) by (subst un; apply Z.pow_le_mono_r; lia). lia. }
  pose proof (binade m Lm) as (Hem & Hum & Hqm). cbv zeta in *.
  rewrite (round53_large m Lm). cbv zeta.
  set (um := 2 ^ (Z.log2 m - 52)) in *.
  pose proof (nearestEven_bounds um (m / um) (m mod um)) as Bm.
  assert (Hlog : Z.log2 m <= Z.log2 n) by (apply Z.log2_le_mono; lia).
  destruct (Z.eq_dec (Z.log2 m) (Z.log2 n)) as [E|NE].
  - assert (um = un) as -> by (subst um un; rewrite E; reflexivity).
    destruct (Z.eq_dec (m / un) (n / un)) as [Eq|Nq].
    + rewrite Eq.
      pose proof (nearestEven_mono un (n / un) (m mod un) (n mod un)).
      assert (m mod un <= n mod un) by lia. nia.
    + assert (m / un < n / un).
      { pose proof (Z.div_le_mono m n un Hun Hmn). lia. }
      nia.
  - assert (2 * um <= un).
    { subst um un.
      replace (Z.log2 n - 52) with (1 + (Z.log2 m - 52) + (Z.log2 n - Z.log2 m - 1)) by lia.
      rewrite !Z.pow_add_r by lia. change (2 ^ 1) with 2.
      assert (1 <= 2 ^ (Z.log2 n - Z.log2 m - 1)) by (apply (Z.pow_le_mono_r 2 0); lia).
      nia. }
    nia.
Qed.

Lemma round53_pos n : 0 < n -> 0 < round53 n.
Proof.
  intros H. destruct (Z.lt_ge_cases n (2 ^ 53)) as [S|L].
  - rewrite round53_small by lia. exact H.
  - rewrite (round53_large n L). cbv zeta.
    pose proof (binade n L) as (He & Hu & Hq). cbv zeta in *.
    pose proof (nearestEven_bounds (2 ^ (Z.log2 n - 52)) (n / 2 ^ (Z.log2 n - 52))
                  (n mod 2 ^ (Z.log2 n - 52))). nia.
Qed.

Lemma round53_opp z : round53 (- z) = - round53 z.
Proof.
  unfold round53. rewrite Z.abs_opp, Z.sgn_opp.
  destruct (Z.log2 (Z.abs z) - 52 <=? 0); lia.
Qed.

(** Rounding keeps the sign: the comparator of the two sorts,
    [a.date.getTime() - b.date.getTime()], is negative, zero or positive as
    the exact difference is. *)
Lemma round53_sgn z : Z.sgn (round53 z) = Z.sgn z.
Proof.
  destruct (Z.lt_trichotomy z 0) as [N|[->|P]].
  - pose proof (round53_pos (- z) ltac:(lia)) as H.
    rewrite round53_opp in H. rewrite !Z.sgn_neg by lia. reflexivity.
  - reflexivity.
  - pose proof (round53_pos z P). rewrite !Z.sgn_pos by lia. reflexivity.
Qed.

(** *** The rounding of [binary_normalize] *)

Lemma digits2_pos_size p : digits2_pos p = Pos.size p.
Proof. induction p; cbn; congruence. Qed.

Lemma digits_log2 p : Z.pos (digits2_pos p) = Z.log2 (Z.pos p) + 1.
Proof.
  rewrite digits2_pos_size.
  destruct p; cbn [Pos.size Z.log2]; lia.
Qed.

Lemma fexp_normal d : -1021 <= d -> fexp prec emax d = d - 53.
Proof. intros H. unfold fexp, emin, prec, emax. lia. Qed.

Lemma iter_pos_comm {A} (f : A -> A) p :
  forall x, iter_pos f p (f x) = f (iter_pos f p x).
Proof.
  induction p as [p IH|p IH|]; intros x; cbn [iter_pos].
  - rewrite !IH. reflexivity.
  - rewrite !IH. reflexivity.
  - reflexivity.
Qed.

Lemma iter_pos_succ {A} (f : A -> A) p :
  forall x, iter_pos f (Pos.succ p) x = f (iter_pos f p x).
Proof.
  induction p as [p IH|p IH|]; intros x; cbn [iter_pos Pos.succ].
  - rewrite !IH. rewrite !iter_pos_comm. reflexivity.
  - rewrite !iter_pos_comm. reflexivity.
  - reflexivity.
Qed.

Lemma iter_pos_add {A} (f : A -> A) p q x :
  iter_pos f (p + q) x = iter_pos f p (iter_pos f q x).
Proof.
  induction p as [|p IH] using Pos.peano_ind.
  - rewrite Pos.add_1_l. apply iter_pos_succ.
  - rewrite Pos.add_succ_l, !iter_pos_succ, IH. reflexivity.
Qed.

Lemma shr_1_double m : shr_1 (exactly (m * 2)) = exactly m.
Proof.
  destruct m as [|p|p]; [reflexivity| |].
  - replace (Z.pos p * 2) with (Z.pos p~0) by lia. reflexivity.
  - replace (Z.neg p * 2) with (Z.neg p~0) by lia. reflexivity.
Qed.

(** Shifting out zeros is exact. *)
Lemma iter_pos_shr_1_exact j :
  forall m, iter_pos shr_1 j (exactly (m * 2 ^ Z.pos j)) = exactly m.
Proof.
  induction j as [|j IH] using Pos.peano_ind; intros m.
  - change (2 ^ 1) with 2. apply shr_1_double.
  - rewrite iter_pos_succ, Pos2Z.inj_succ, Z.pow_succ_r by lia.
    replace (m * (2 * 2 ^ Z.pos j)) with (m * 2 * 2 ^ Z.pos j) by lia.
    rewrite IH. apply shr_1_double.
Qed.

Lemma iter_xO n d : Z.pos (Pos.iter xO n d) = Z.pos n * 2 ^ Z.pos d.
Proof.
  induction d as [|d IH] using Pos.peano_ind.
  - cbn. lia.
  - rewrite Pos.iter_succ, Pos2Z.inj_succ, Z.pow_succ_r by lia.
    rewrite Pos2Z.inj_xO, IH. lia.
Qed.

Lemma log2_scaled p k : 0 <= k -> Z.log2 (Z.pos p * 2 ^ k) = Z.log2 (Z.pos p) + k.
Proof. intros H. rewrite Z.log2_mul_pow2 by lia. lia. Qed.

(** A mantissa of 53 bits needs no rounding. *)
Lemma binary_round_aux_canonical s m e :
  Z.log2 (Z.pos m) = 52 -> -1073 <= e <= 971 ->
  binary_round_aux prec emax s (Z.pos m) e loc_Exact = S754_finite s m e.
Proof.
  intros Hm He.
  assert (Hs : shr_fexp prec emax (Z.pos m) e loc_Exact = (exactly (Z.pos m), e)).
  { unfold shr_fexp. cbn [Zdigits2]. rewrite digits_log2, Hm, fexp_normal by lia.
    replace (52 + 1 + e - 53 - e) with 0 by lia. reflexivity. }
  unfold binary_round_aux. rewrite Hs. cbn [exactly shr_m loc_of_shr_record round_nearest_even].
  rewrite Hs. cbn [exactly shr_m].
  destruct (Z.leb_spec e (emax - prec)) as [_|H]; [reflexivity|].
  unfold emax, prec in H. lia.
Qed.

(** The first shift of [binary_round_aux] drops trailing zeros. *)
Lemma shr_fexp_scaled m e j :
  0 < m -> 0 <= j -> -1021 <= Z.log2 m + 1 + e -> 0 <= Z.log2 m + 1 - 53 ->
  shr_fexp prec emax (m * 2 ^ j) (e - j) loc_Exact = shr_fexp prec emax m e loc_Exact.
Proof.
  intros Hm Hj He Ht.
  destruct m as [|p|p]; try lia.
  destruct (Z.eq_dec j 0) as [->|Hj0].
  { rewrite Z.mul_1_r, Z.sub_0_r. reflexivity. }
  assert (Hpow : 0 < 2 ^ j) by (apply Z.pow_pos_nonneg; lia).
  destruct (Z.pos p * 2 ^ j) as [|n|n] eqn:En; try lia.
  unfold shr_fexp. cbn [Zdigits2 shr_record_of_loc].
  rewrite !digits_log2, <- En, log2_scaled by lia.
  rewrite !fexp_normal by lia.
  replace (Z.log2 (Z.pos p) + j + 1 + (e - j) - 53 - (e - j))
    with (Z.log2 (Z.pos p) + 1 - 53 + j) by lia.
  replace (Z.log2 (Z.pos p) + 1 + e - 53 - e) with (Z.log2 (Z.pos p) + 1 - 53) by lia.
  set (t := Z.log2 (Z.pos p) + 1 - 53) in *.
  destruct j as [|j|j]; try lia.
  fold (exactly (Z.pos p * 2 ^ Z.pos j)). fold (exactly (Z.pos p)).
  destruct t as [|t|t]; try lia.
  - unfold shr. cbn [Z.add]. rewrite iter_pos_shr_1_exact. f_equal. lia.
  - unfold shr. cbn [Z.add]. rewrite iter_pos_add, iter_pos_shr_1_exact. f_equal. lia.
Qed.

Lemma log2_52 m : Z.log2 (Z.pos m) = 52 <-> 2 ^ 52 <= Z.pos m < 2 ^ 53.
Proof.
  split.
  - intros H. pose proof (Z.log2_spec (Z.pos m) ltac:(lia)) as S.
    rewrite H in S. exact S.
  - intros H. apply Z.log2_unique; [lia|exact H].
Qed.

(** [binary_round] on an integer below 2^53 scaled by a power of two. *)
Lemma binary_round_small s n p k :
  0 <= k -> Z.pos n = Z.pos p * 2 ^ k -> Z.pos p < 2 ^ 53 ->
  canonical s (Z.pos p) (binary_round prec emax s n (- k)).
Proof.
  intros Hk En Hp.
  assert (HL : 0 <= Z.log2 (Z.pos p) <= 52).
  { split; [apply Z.log2_nonneg|]. apply Z.lt_succ_r, Z.log2_lt_pow2; lia. }
  set (L := Z.log2 (Z.pos p)) in *.
  assert (Hpow : Z.pos p * 2 ^ (52 - L) * 2 ^ (L - 52 + 52) = Z.pos p * 2 ^ 52).
  { rewrite <- Z.mul_assoc, <- Z.pow_add_r by lia. do 2 f_equal. lia. }
  assert (Hlog : forall m, Z.pos m = Z.pos p * 2 ^ (52 - L) -> Z.log2 (Z.pos m) = 52).
  { intros m E. rewrite E, log2_scaled by lia. fold L. lia. }
  unfold binary_round.
  rewrite digits_log2, En, log2_scaled by lia. fold L.
  rewrite fexp_normal by lia.
  replace (L + k + 1 + - k - 53) with (L - 52) by lia.
  unfold shl_align.
  replace (L - 52 - - k) with (L - 52 + k) by lia.
  destruct (L - 52 + k) as [|t|d] eqn:Et; cbv beta iota.
  - assert (En' : Z.pos n = Z.pos p * 2 ^ (52 - L)) by (rewrite En; do 2 f_equal; lia).
    rewrite (binary_round_aux_canonical s n (- k) (Hlog n En') ltac:(lia)).
    exists n, (- k). repeat split; try lia; [apply Hlog, En'|].
    rewrite En'. replace (- k) with (L - 52) by lia. exact Hpow.
  - destruct (Z.pos p * 2 ^ (52 - L)) as [|m|m] eqn:Em; try lia.
    assert (En' : Z.pos n = Z.pos m * 2 ^ Z.pos t).
    { rewrite En, <- Em, <- Z.mul_assoc, <- Z.pow_add_r by lia. do 2 f_equal. lia. }
    pose proof (Hlog m eq_refl) as Lm.
    unfold binary_round_aux.
    replace (- k) with (L - 52 - Z.pos t) by lia.
    rewrite En', shr_fexp_scaled by lia.
    fold (binary_round_aux prec emax s (Z.pos m) (L - 52) loc_Exact).
    rewrite (binary_round_aux_canonical s m (L - 52) Lm ltac:(lia)).
    exists m, (L - 52). repeat split; lia.
  - assert (Ei : Z.pos (Pos.iter xO n d) = Z.pos p * 2 ^ (52 - L)).
    { rewrite iter_xO, En, <- Z.mul_assoc, <- Z.pow_add_r by lia. do 2 f_equal. lia. }
    rewrite (binary_round_aux_canonical s _ (L - 52) (Hlog _ Ei) ltac:(lia)).
    exists (Pos.iter xO n d), (L - 52).
    repeat split; try lia; [apply Hlog, Ei].
Qed.

Lemma binary_round_aux_renormalize s mx ex lx :
  binary_round_aux prec emax s mx ex lx
  = renormalize s
      (round_nearest_even (shr_m (fst (shr_fexp prec emax mx ex lx)))
         (loc_of_shr_record (fst (shr_fexp prec emax mx ex lx))))
      (snd (shr_fexp prec emax mx ex lx)).
Proof.
  unfold binary_round_aux, renormalize.
  destruct (shr_fexp prec emax mx ex lx) as [mrs e]. reflexivity.
Qed.

Lemma renormalize_54 s m :
  2 ^ 52 <= m <= 2 ^ 53 -> canonical s (m * 2) (renormalize s m 1).
Proof.
  intros H. destruct (Z.eq_dec m (2 ^ 53)) as [->|N].
  - exists (2 ^ 52)%positive, 2. repeat split; try lia; reflexivity.
  - destruct m as [|p|p]; try lia.
    assert (Lp : Z.log2 (Z.pos p) = 52) by (apply log2_52; lia).
    unfold renormalize, shr_fexp. cbn [Zdigits2].
    rewrite digits_log2, Lp, fexp_normal by lia.
    cbn [Z.add Z.sub Z.opp Z.pos_sub Pos.add Pos.succ Pos.pred_double shr
         shr_record_of_loc shr_m Pos.compare Pos.compare_cont].
    exists p, 1. repeat split; try lia.
Qed.

(** [binary_round] on an integer of 54 bits scaled by a power of two: one
    bit is rounded away, to nearest, ties to even. *)
Lemma binary_round_54 s n p k :
  0 <= k -> Z.pos n = Z.pos p * 2 ^ k -> 2 ^ 53 <= Z.pos p < 2 ^ 54 ->
  canonical s (round53 (Z.pos p)) (binary_round prec emax s n (- k)).
Proof.
  intros Hk En Hp.
  assert (HL : Z.log2 (Z.pos p) = 53) by (apply Z.log2_unique; lia).
  assert (HR : round53 (Z.pos p)
               = nearestEven 2 (Z.pos p / 2) (Z.pos p mod 2) * 2).
  { rewrite round53_large by lia. cbv zeta. rewrite HL. reflexivity. }
  unfold binary_round.
  rewrite digits_log2, En, log2_scaled, HL, fexp_normal by lia.
  unfold shl_align.
  replace (53 + k + 1 + - k - 53 - - k) with (1 + k) by lia.
  destruct (1 + k) as [|t|t] eqn:Et; try lia. cbv beta iota.
  rewrite binary_round_aux_renormalize.
  replace (- k) with (0 - k) by lia.
  rewrite En, shr_fexp_scaled by (rewrite ?HL; lia).
  assert (Hs : shr_fexp prec emax (Z.pos p) 0 loc_Exact = (shr_1 (exactly (Z.pos p)), 1)).
  { unfold shr_fexp. cbn [Zdigits2]. rewrite digits_log2, HL, fexp_normal by lia.
    reflexivity. }
  rewrite Hs, HR. cbn [fst snd].
  destruct p as [q|q|]; try lia;
    cbn [shr_1 exactly shr_m loc_of_shr_record round_nearest_even orb].
  - replace (Z.pos q~1 / 2) with (Z.pos q) by lia.
    replace (Z.pos q~1 mod 2) with 1 by lia.
    unfold nearestEven. change (2 * 1 ?= 2) with Eq. cbv iota.
    apply renormalize_54. destruct (Z.even (Z.pos q)); lia.
  - replace (Z.pos q~0 / 2) with (Z.pos q) by lia.
    replace (Z.pos q~0 mod 2) with 0 by lia.
    unfold nearestEven. change (2 * 0 ?= 2) with Lt. cbv iota.
    apply renormalize_54. lia.
Qed.

(** [binary_round] on an integer below 2^54 scaled by a power of two. *)
Lemma binary_round_integer s n p k :
  0 <= k -> Z.pos n = Z.pos p * 2 ^ k -> Z.pos p < 2 ^ 54 ->
  canonical s (round53 (Z.pos p)) (binary_round prec emax s n (- k)).
Proof.
  intros Hk En Hp.
  destruct (Z.lt_ge_cases (Z.pos p) (2 ^ 53)) as [S|L].
  - rewrite round53_small by lia. apply binary_round_small; assumption.
  - apply binary_round_54; try assumption. lia.
Qed.

Lemma pow2_lt_mono a b : 0 <= a < b -> 2 * 2 ^ a <= 2 ^ b.
Proof.
  intros H. replace b with (Z.succ a + (b - a - 1)) by lia.
  rewrite Z.pow_add_r, Z.pow_succ_r by lia.
  assert (1 <= 2 ^ (b - a - 1)) by (apply (Z.pow_le_mono_r 2 0); lia).
  assert (0 < 2 ^ a) by (apply Z.pow_pos_nonneg; lia). nia.
Qed.

(** Canonical numbers are ordered by exponent, then by mantissa. *)
Lemma canonical_lt_exponent m1 e1 m2 e2 :
  2 ^ 52 <= m1 < 2 ^ 53 -> 2 ^ 52 <= m2 < 2 ^ 53 -> -52 <= e1 < e2 ->
  m1 * 2 ^ (e1 + 52) < m2 * 2 ^ (e2 + 52).
Proof.
  intros H1 H2 He.
  pose proof (pow2_lt_mono (e1 + 52) (e2 + 52) ltac:(lia)).
  assert (0 < 2 ^ (e1 + 52)) by (apply Z.pow_pos_nonneg; lia). nia.
Qed.

Lemma canonical_unique s v x y : canonical s v x -> canonical s v y -> x = y.
Proof.
  intros (m1 & e1 & -> & L1 & B1 & V1) (m2 & e2 & -> & L2 & B2 & V2).
  apply log2_52 in L1, L2.
  assert (e1 = e2).
  { destruct (Z.lt_trichotomy e1 e2) as [H|[H|H]]; [|exact H|].
    - pose proof (canonical_lt_exponent _ e1 _ e2 L1 L2 ltac:(lia)). lia.
    - pose proof (canonical_lt_exponent _ e2 _ e1 L2 L1 ltac:(lia)). lia. }
  subst e2.
  assert (0 < 2 ^ (e1 + 52)) by (apply Z.pow_pos_nonneg; lia).
  assert (Z.pos m1 = Z.pos m2) by nia. congruence.
Qed.

Lemma integral_unique v x y : integral v x -> integral v y -> x = y.
Proof.
  intros [[E1 ->]|[N1 C1]] [[E2 ->]|[N2 C2]]; try congruence.
  eapply canonical_unique; eassumption.
Qed.

Lemma canonical_valid s v x : canonical s v x -> valid_binary x = true.
Proof.
  intros (m & e & -> & L & B & _).
  unfold valid_binary, SpecFloat.valid_binary, bounded, canonical_mantissa.
  rewrite digits_log2, L, fexp_normal by lia.
  apply andb_true_iff. split; [apply Z.eqb_eq; lia|].
  apply Z.leb_le. unfold emax, prec. lia.
Qed.

Lemma binary_normalize_integral z :
  Z.abs z < 2 ^ 54 -> integral (round53 z) (binary_normalize prec emax z 0 false).
Proof.
  intros H. destruct z as [|p|p].
  - left. split; reflexivity.
  - right. pose proof (round53_pos (Z.pos p) ltac:(lia)).
    split; [lia|].
    replace (round53 (Z.pos p) <? 0) with false by (symmetry; apply Z.ltb_ge; lia).
    rewrite Z.abs_eq by lia.
    apply (binary_round_integer false p p 0); lia.
  - right. change (Z.neg p) with (- Z.pos p). rewrite round53_opp.
    pose proof (round53_pos (Z.pos p) ltac:(lia)).
    split; [lia|].
    replace (- round53 (Z.pos p) <? 0) with true by (symmetry; apply Z.ltb_lt; lia).
    rewrite Z.abs_neq by lia. rewrite Z.opp_involutive.
    apply (binary_round_integer true p p 0); lia.
Qed.

Lemma integral_valid v x : integral v x -> valid_binary x = true.
Proof.
  intros [[_ ->]|[_ C]]; [reflexivity|eapply canonical_valid, C].
Qed.

(** The binary64 value of an integer below 2^54 is its rounding. *)
Lemma Z2F_integral z : Z.abs z < 2 ^ 54 -> integral (round53 z) (Prim2SF (Z2F z)).
Proof.
  intros H. pose proof (binary_normalize_integral z H) as I.
  unfold Z2F. rewrite Prim2SF_SF2Prim by (eapply integral_valid, I). exact I.
Qed.

Lemma integral_abs v x : integral v x -> integral (Z.abs v) (SFabs x).
Proof.
  intros [[-> ->]|[N (m & e & -> & C)]].
  - left. split; reflexivity.
  - right. split; [lia|].
    replace (Z.abs v <? 0) with false by (symmetry; apply Z.ltb_ge; lia).
    rewrite (Z.abs_eq (Z.abs v)) by lia. exists m, e. split; [reflexivity|exact C].
Qed.

(** Binary64 numbers that are non-negative integers compare as the
    integers do. *)
Lemma integral_ltb u v x y :
  0 <= u -> 0 <= v -> integral u x -> integral v y -> SFltb x y = (u <? v).
Proof.
  intros Hu Hv [[-> ->]|[Nu (m1 & e1 & -> & L1 & B1 & V1)]]
               [[-> ->]|[Nv (m2 & e2 & -> & L2 & B2 & V2)]].
  - reflexivity.
  - replace (v <? 0) with false by (symmetry; apply Z.ltb_ge; lia).
    unfold SFltb, SFcompare. symmetry. apply Z.ltb_lt. lia.
  - replace (u <? 0) with false by (symmetry; apply Z.ltb_ge; lia).
    reflexivity.
  - replace (u <? 0) with false by (symmetry; apply Z.ltb_ge; lia).
    replace (v <? 0) with false by (symmetry; apply Z.ltb_ge; lia).
    rewrite Z.abs_eq in V1, V2 by lia.
    apply log2_52 in L1, L2.
    unfold SFltb, SFcompare.
    destruct (Z.compare_spec e1 e2) as [E|E|E].
    + subst e2. rewrite Pos.compare_cont_spec. cbn [Pos.switch_Eq].
      assert (0 < 2 ^ (e1 + 52)) by (apply Z.pow_pos_nonneg; lia).
      change (Pos.compare m1 m2) with (Z.compare (Z.pos m1) (Z.pos m2)).
      destruct (Z.compare_spec (Z.pos m1) (Z.pos m2));
        symmetry; [apply Z.ltb_ge|apply Z.ltb_lt|apply Z.ltb_ge]; nia.
    + pose proof (canonical_lt_exponent _ e1 _ e2 L1 L2 ltac:(lia)).
      symmetry. apply Z.ltb_lt. lia.
    + pose proof (canonical_lt_exponent _ e2 _ e1 L2 L1 ltac:(lia)).
      symmetry. apply Z.ltb_ge. lia.
Qed.

Lemma shl_align_value m e e' :
  e' <= e -> Z.pos (fst (shl_align m e e')) = Z.pos m * 2 ^ (e - e').
Proof.
  intros H. unfold shl_align.
  destruct (e' - e) as [|d|d] eqn:E; cbn [fst]; try lia.
  - replace (e - e') with 0 by lia. lia.
  - rewrite iter_xO. do 2 f_equal. lia.
Qed.

Lemma mantissa_integer m e v :
  -52 <= e <= 0 -> Z.pos m * 2 ^ (e + 52) = v * 2 ^ 52 -> Z.pos m = v * 2 ^ (- e).
Proof.
  intros He V.
  assert (E52 : 2 ^ 52 = 2 ^ (- e) * 2 ^ (e + 52))
    by (rewrite <- Z.pow_add_r by lia; f_equal; lia).
  assert (0 < 2 ^ (e + 52)) by (apply Z.pow_pos_nonneg; lia).
  rewrite E52, Z.mul_assoc in V.
  apply Z.mul_reg_r in V; [exact V|lia].
Qed.

Lemma canonical_exponent s v x :
  0 < v < 2 ^ 53 -> canonical s v x ->
  exists m e, x = S754_finite s m e /\ -52 <= e <= 0 /\ Z.pos m = v * 2 ^ (- e).
Proof.
  intros Hv (m & e & -> & L & B & V).
  apply log2_52 in L.
  assert (e <= 0).
  { destruct (Z.lt_ge_cases 0 e) as [G|]; [exfalso|assumption].
    pose proof (pow2_lt_mono 52 (e + 52) ltac:(lia)). nia. }
  exists m, e. split; [reflexivity|]. split; [lia|].
  apply mantissa_integer; [lia|exact V].
Qed.

Lemma aligned_operand (s : bool) m e v ez :
  -52 <= e <= 0 -> ez <= e -> Z.pos m = Z.abs v * 2 ^ (- e) -> s = (v <? 0) ->
  cond_Zopp s (Z.pos (fst (shl_align m e ez))) = v * 2 ^ (- ez).
Proof.
  intros He Hez Hm ->.
  rewrite shl_align_value, Hm, <- Z.mul_assoc, <- Z.pow_add_r by lia.
  replace (- e + (e - ez)) with (- ez) by lia.
  unfold cond_Zopp. destruct (Z.ltb_spec v 0); lia.
Qed.

(** Subtracting two integers below 2^53: the exact difference, rounded. *)
Lemma SF64sub_integral a b x y :
  Z.abs a < 2 ^ 53 -> Z.abs b < 2 ^ 53 ->
  integral a x -> integral b y ->
  integral (round53 (a - b)) (SF64sub x y).
Proof.
  intros Ha Hb [[-> ->]|[Na Ca]] [[-> ->]|[Nb Cb]].
  - left. split; reflexivity.
  - destruct Cb as (m & e & -> & C).
    cbn [SF64sub SFsub Z.sub Z.add]. rewrite round53_opp, round53_small by lia.
    right. split; [lia|].
    rewrite Z.abs_opp.
    replace (- b <? 0) with (negb (b <? 0))
      by (destruct (Z.ltb_spec b 0), (Z.ltb_spec (- b) 0); try reflexivity; lia).
    exists m, e. split; [reflexivity|exact C].
  - rewrite Z.sub_0_r, round53_small by lia.
    destruct Ca as (m & e & -> & C).
    right. split; [exact Na|]. exists m, e. split; [reflexivity|exact C].
  - destruct (canonical_exponent (a <? 0) (Z.abs a) _ ltac:(lia) Ca) as (ma & ea & -> & Ea & Ma).
    destruct (canonical_exponent (b <? 0) (Z.abs b) _ ltac:(lia) Cb) as (mb & eb & -> & Eb & Mb).
    unfold SF64sub, SFsub. cbv zeta.
    set (ez := Z.min ea eb).
    rewrite (aligned_operand _ ma ea a ez), (aligned_operand _ mb eb b ez)
      by (try reflexivity; try assumption; subst ez; lia).
    rewrite <- Z.mul_sub_distr_r.
    assert (Hk : 0 <= - ez) by (subst ez; lia).
    assert (Hpow : 0 < 2 ^ (- ez)) by (apply Z.pow_pos_nonneg; lia).
    replace ez with (- - ez) at 2 by lia.
    destruct (Z.lt_trichotomy (a - b) 0) as [Lt|[E|Gt]].
    + destruct ((a - b) * 2 ^ (- ez)) as [|n|n] eqn:En; try nia.
      cbn [binary_normalize].
      destruct (b - a) as [|p|p] eqn:Ep; try lia.
      replace (a - b) with (- Z.pos p) by lia. rewrite round53_opp.
      pose proof (round53_pos (Z.pos p) ltac:(lia)).
      right. split; [lia|].
      replace (- round53 (Z.pos p) <? 0) with true by (symmetry; apply Z.ltb_lt; lia).
      rewrite Z.abs_neq, Z.opp_involutive by lia.
      apply binary_round_integer; lia.
    + rewrite E. left. split; reflexivity.
    + destruct ((a - b) * 2 ^ (- ez)) as [|n|n] eqn:En; try nia.
      cbn [binary_normalize].
      destruct (a - b) as [|p|p] eqn:Ep; try lia.
      pose proof (round53_pos (Z.pos p) ltac:(lia)).
      right. split; [lia|].
      replace (round53 (Z.pos p) <? 0) with false by (symmetry; apply Z.ltb_ge; lia).
      rewrite Z.abs_eq by lia.
      apply binary_round_integer; lia.
Qed.

Lemma Z2F_small z : Z.abs z < 2 ^ 53 -> integral z (Prim2SF (Z2F z)).
Proof.
  intros H. rewrite <- (round53_small z H) at 1. apply Z2F_integral. lia.
Qed.

(** [a - b] on binary64 numbers that are integers below 2^53 is the
    binary64 value of the exact difference. *)
Lemma sub_integers a b :
  Z.abs a < 2 ^ 53 -> Z.abs b < 2 ^ 53 -> (Z2F a - Z2F b)%float = Z2F (a - b).
Proof.
  intros Ha Hb. apply Prim2SF_inj. rewrite sub_spec.
  apply (integral_unique (round53 (a - b))).
  - apply SF64sub_integral; try assumption; apply Z2F_small; assumption.
  - apply Z2F_integral. lia.
Qed.

(** The comparison of two absolute differences, as binary64 computes it. *)
Lemma ltb_abs_sub a b c d :
  Z.abs a < 2 ^ 53 -> Z.abs b < 2 ^ 53 -> Z.abs c < 2 ^ 53 -> Z.abs d < 2 ^ 53 ->
  (abs (Z2F a - Z2F b) <? abs (Z2F c - Z2F d))%float
  = (Z.abs (round53 (a - b)) <? Z.abs (round53 (c - d))).
Proof.
  intros Ha Hb Hc Hd.
  rewrite ltb_spec, !abs_spec, !sub_spec.
  apply integral_ltb; try apply Z.abs_nonneg;
    apply integral_abs, SF64sub_integral; try assumption; apply Z2F_small; assumption.
Qed.

(** On time values a [Date] can hold, the model's comparison of two
    differences is the comparison the code makes on binary64 numbers. *)
Lemma timeDifference_binary64 targetDate d1 d2 :
  inTimeRange targetDate -> inTimeRange d1 -> inTimeRange d2 ->
  (abs (Z2F (getTime d1) - Z2F (getTime targetDate))
   <? abs (Z2F (getTime d2) - Z2F (getTime targetDate)))%float
  = (timeDifference targetDate d1 <? timeDifference targetDate d2).
Proof.
  unfold inTimeRange, timeDifference. intros Ht H1 H2.
  apply ltb_abs_sub; lia.
Qed.

(** ** The scan of findClosestDate *)

Lemma timeDifference_zero targetDate d :
  timeDifference targetDate d = 0 -> getTime d = getTime targetDate.
Proof.
  unfold timeDifference. rewrite round53_abs. intros H.
  destruct (Z.eq_dec (getTime d) (getTime targetDate)) as [E|N]; [exact E|].
  pose proof (round53_pos (Z.abs (getTime d - getTime targetDate)) ltac:(lia)). lia.
Qed.

Lemma timeDifference_exact targetDate d :
  distance targetDate d <= 2 ^ 53 -> timeDifference targetDate d = distance targetDate d.
Proof.
  unfold timeDifference, distance. intros H.
  rewrite round53_abs. apply round53_exact.
  rewrite Z.abs_eq by apply Z.abs_nonneg. exact H.
Qed.

(** Rounding keeps the order of the distances, up to ties. *)
Lemma timeDifference_mono targetDate d1 d2 :
  distance targetDate d1 <= distance targetDate d2 ->
  timeDifference targetDate d1 <= timeDifference targetDate d2.
Proof.
  unfold timeDifference, distance. intros H.
  rewrite !round53_abs. apply round53_mono. lia.
Qed.

Lemma scanClosest_spec targetDate rest :
  forall pre c i,
    nth_error pre i = Some c ->
    (forall j d, nth_error pre j = Some d ->
                 timeDifference targetDate c <= timeDifference targetDate d) ->
    (forall j d, (j < i)%nat -> nth_error pre j = Some d ->
                 timeDifference targetDate c < timeDifference targetDate d) ->
    exists k,
      nth_error (pre ++ rest) k
        = Some (scanClosest targetDate c (timeDifference targetDate c) rest)
      /\ (forall j d, nth_error (pre ++ rest) j = Some d ->
            timeDifference targetDate
              (scanClosest targetDate c (timeDifference targetDate c) rest)
            <= timeDifference targetDate d)
      /\ (forall j d, (j < k)%nat -> nth_error (pre ++ rest) j = Some d ->
            timeDifference targetDate
              (scanClosest targetDate c (timeDifference targetDate c) rest)
            < timeDifference targetDate d).
Proof.
  induction rest as [|x rest IH]; intros pre c i Hi Hmin Hfirst.
  - rewrite app_nil_r. cbn [scanClosest]. exists i. auto.
  - cbn [scanClosest]. fold (timeDifference targetDate x).
    replace (pre ++ x :: rest) with ((pre ++ [x]) ++ rest)
      by (rewrite <- app_assoc; reflexivity).
    assert (Hlen : (i < length pre)%nat)
      by (apply nth_error_Some; rewrite Hi; discriminate).
    destruct (Z.ltb_spec (timeDifference targetDate x) (timeDifference targetDate c))
      as [Hlt|Hge].
    + apply (IH (pre ++ [x]) x (length pre)).
      * rewrite nth_error_app2, Nat.sub_diag by lia. reflexivity.
      * intros j d Hj.
        destruct (Nat.lt_ge_cases j (length pre)) as [Hjl|Hjl].
        -- rewrite nth_error_app1 in Hj by exact Hjl.
           specialize (Hmin j d Hj). lia.
        -- rewrite nth_error_app2 in Hj by exact Hjl.
           destruct (j - length pre)%nat as [|n]; cbn in Hj.
           ++ injection Hj as <-. lia.
           ++ destruct n; discriminate.
      * intros j d Hjl Hj.
        rewrite nth_error_app1 in Hj by exact Hjl.
        specialize (Hmin j d Hj). lia.
    + apply (IH (pre ++ [x]) c i).
      * rewrite nth_error_app1 by exact Hlen. exact Hi.
      * intros j d Hj.
        destruct (Nat.lt_ge_cases j (length pre)) as [Hjl|Hjl].
        -- rewrite nth_error_app1 in Hj by exact Hjl. exact (Hmin j d Hj).
        -- rewrite nth_error_app2 in Hj by exact Hjl.
           destruct (j - length pre)%nat as [|n]; cbn in Hj.
           ++ injection Hj as <-. lia.
           ++ destruct n; discriminate.
      * intros j d Hjl Hj.
        rewrite nth_error_app1 in Hj by lia.
        exact (Hfirst j d Hjl Hj).
Qed.

(** The candidate returned is the first of those whose difference to the
    target, as the scan computes it, is least. *)
Lemma findClosestDate_spec targetDate dates :
  dates <> [] ->
  exists k closest,
    findClosestDate targetDate dates = Some closest
    /\ nth_error dates k = Some closest
    /\ (forall j d, nth_error dates j = Some d ->
          timeDifference targetDate closest <= timeDifference targetDate d)
    /\ (forall j d, (j < k)%nat -> nth_error dates j = Some d ->
          timeDifference targetDate closest < timeDifference targetDate d).
Proof.
  destruct dates as [|first rest]; [congruence|]. intros _.
  cbn [findClosestDate]. fold (timeDifference targetDate first).
  destruct (scanClosest_spec targetDate rest [first] first 0%nat) as (k & A & B & C).
  - reflexivity.
  - intros [|[|j]] d Hj; cbn in Hj; try discriminate. injection Hj as <-. lia.
  - intros j d Hj. lia.
  - exists k, (scanClosest targetDate first (timeDifference targetDate first) rest).
    cbn [app] in *. auto.
Qed.

(** Where the differences are exact, it is the first of the closest. *)
Lemma findClosestDate_spec_exact targetDate dates :
  dates <> [] -> exactDifferences targetDate dates ->
  exists k closest,
    findClosestDate targetDate dates = Some closest
    /\ nth_error dates k = Some closest
    /\ (forall j d, nth_error dates j = Some d ->
          distance targetDate closest <= distance targetDate d)
    /\ (forall j d, (j < k)%nat -> nth_error dates j = Some d ->
          distance targetDate closest < distance targetDate d).
Proof.
  intros Hne Hex.
  destruct (findClosestDate_spec targetDate dates Hne) as (k & c & E & Hk & A & B).
  exists k, c. split; [exact E|]. split; [exact Hk|].
  pose proof (timeDifference_exact targetDate c (Hex c (nth_error_In _ _ Hk))) as Ec.
  split.
  - intros j d Hj. specialize (A j d Hj).
    rewrite Ec, (timeDifference_exact targetDate d (Hex d (nth_error_In _ _ Hj))) in A.
    exact A.
  - intros j d Hjk Hj. specialize (B j d Hjk Hj).
    rewrite Ec, (timeDifference_exact targetDate d (Hex d (nth_error_In _ _ Hj))) in B.
    exact B.
Qed.

Lemma Date_eq a b : getTime a = getTime b -> a = b.
Proof. destruct a, b; cbn; congruence. Qed.

Lemma findClosestDate_None targetDate dates :
  findClosestDate targetDate dates = None <-> dates = [].
Proof. destruct dates; cbn; split; congruence. Qed.

Lemma findClosestDate_In targetDate dates closest :
  findClosestDate targetDate dates = Some closest -> In closest dates.
Proof.
  intros H.
  destruct dates as [|a l]; [discriminate|].
  destruct (findClosestDate_spec targetDate (a :: l) ltac:(discriminate))
    as (k & c & E & Hk & _).
  rewrite H in E. injection E as <-. eapply nth_error_In, Hk.
Qed.

(** A target that is itself a candidate is found: its difference is 0, and
    no other difference rounds to 0. *)
Lemma findClosestDate_exact targetDate dates :
  In targetDate dates -> findClosestDate targetDate dates = Some targetDate.
Proof.
  intros Hin.
  destruct dates as [|a l]; [contradiction|].
  destruct (findClosestDate_spec targetDate (a :: l) ltac:(discriminate))
    as (k & c & E & _ & Hmin & _).
  rewrite E. f_equal. apply Date_eq.
  destruct (In_nth_error _ _ Hin) as [j Hj].
  specialize (Hmin j targetDate Hj).
  apply timeDifference_zero.
  unfold timeDifference in Hmin at 2. rewrite Z.sub_diag in Hmin.
  change (Z.abs (round53 0)) with 0 in Hmin.
  pose proof (Z.abs_nonneg (round53 (getTime c - getTime targetDate))).
  unfold timeDifference in *. lia.
Qed.

(** Where the differences are exact, the closest candidate moves forward
    with the target. *)
Lemma findClosestDate_mono t1 t2 dates c1 c2 :
  exactDifferences t1 dates -> exactDifferences t2 dates ->
  getTime t1 <= getTime t2 ->
  findClosestDate t1 dates = Some c1 ->
  findClosestDate t2 dates = Some c2 ->
  getTime c1 <= getTime c2.
Proof.
  intros X1 X2 Ht H1 H2.
  destruct dates as [|a l]; [discriminate|].
  destruct (findClosestDate_spec_exact t1 (a :: l) ltac:(discriminate) X1)
    as (k1 & c1' & E1 & Hk1 & Hmin1 & Hfirst1).
  destruct (findClosestDate_spec_exact t2 (a :: l) ltac:(discriminate) X2)
    as (k2 & c2' & E2 & Hk2 & Hmin2 & Hfirst2).
  rewrite H1 in E1. rewrite H2 in E2. injection E1 as <-. injection E2 as <-.
  destruct (Z.le_gt_cases (getTime c1) (getTime c2)) as [Hle|Hgt]; [exact Hle|].
  exfalso.
  pose proof (Hmin1 k2 c2 Hk2) as A. pose proof (Hmin2 k1 c1 Hk1) as B.
  unfold distance in *.
  destruct (Nat.lt_trichotomy k1 k2) as [L|[E|G]].
  - specialize (Hfirst2 k1 c1 L Hk1). lia.
  - subst k2. rewrite Hk1 in Hk2. injection Hk2 as ->. lia.
  - specialize (Hfirst1 k2 c2 G Hk2). lia.
Qed.

(** Over candidates in chronological order, a target that is not after the
    candidate [e] never resolves to a candidate after [e], at any distance:
    a later candidate is no closer, and on a tie the earlier one was met
    first. *)
Lemma findClosestDate_not_after targetDate e dates closest :
  (forall i j di dj, (i <= j)%nat -> nth_error dates i = Some di ->
     nth_error dates j = Some dj -> getTime di <= getTime dj) ->
  In e dates -> getTime targetDate <= getTime e ->
  findClosestDate targetDate dates = Some closest ->
  getTime closest <= getTime e.
Proof.
  intros Hsorted He Hte H.
  destruct dates as [|a l]; [discriminate|].
  destruct (findClosestDate_spec targetDate (a :: l) ltac:(discriminate))
    as (k & c & E & Hk & _ & Hfirst).
  rewrite H in E. injection E as <-.
  destruct (Z.le_gt_cases (getTime closest) (getTime e)) as [Hle|Hgt]; [exact Hle|].
  exfalso.
  destruct (In_nth_error _ _ He) as [j Hj].
  destruct (Nat.lt_ge_cases j k) as [L|G].
  - specialize (Hfirst j e L Hj).
    pose proof (timeDifference_mono targetDate e closest) as M.
    unfold distance in M. lia.
  - pose proof (Hsorted k j closest e G Hk Hj). lia.
Qed.

(** ** The window of samples between two dates *)

Lemma chronological_filter f l : chronological l -> chronological (filter f l).
Proof.
  unfold chronological. induction 1 as [|a l Hl IH Ha]; cbn [filter]; [constructor|].
  destruct (f a); [|exact IH].
  constructor; [exact IH|].
  rewrite Forall_forall in *. intros x Hx. apply filter_In in Hx. apply Ha, Hx.
Qed.

Lemma chronological_first l first x :
  chronological l -> nth_error l 0 = Some first -> In x l -> notAfter first x.
Proof.
  intros Hs Hf Hx. destruct l as [|a l]; [contradiction|].
  cbn in Hf. injection Hf as ->.
  inversion Hs as [|? ? _ Ha]; subst. rewrite Forall_forall in Ha.
  destruct Hx as [<-|Hx]; [unfold notAfter; lia|auto].
Qed.

Lemma chronological_last l last x :
  chronological l -> nth_error l (length l - 1) = Some last -> In x l ->
  notAfter x last.
Proof.
  unfold chronological. induction 1 as [|a l Hl IH Ha]; intros Hlast Hx; [contradiction|].
  destruct l as [|b l'].
  - cbn in Hlast. injection Hlast as <-. destruct Hx as [<-|[]]. unfold notAfter; lia.
  - cbn [length] in Hlast, IH.
    replace (S (S (length l')) - 1)%nat with (S (length l')) in Hlast by lia.
    cbn [nth_error] in Hlast.
    replace (S (length l') - 1)%nat with (length l') in IH by lia.
    destruct Hx as [<-|Hx]; [|auto].
    rewrite Forall_forall in Ha.
    apply Ha. eapply nth_error_In. exact Hlast.
Qed.

Lemma element_first_last {A} (l : list A) :
  l <> [] ->
  exists first last,
    element l 0 = Returned first /\ element l (length l - 1) = Returned last.
Proof.
  intros Hne. unfold element.
  destruct (nth_error l 0) eqn:E0.
  2:{ apply nth_error_None in E0. destruct l; [congruence|cbn in E0; lia]. }
  destruct (nth_error l (length l - 1)) eqn:E1.
  2:{ apply nth_error_None in E1. destruct l; [congruence|cbn in E1; lia]. }
  eauto.
Qed.

Lemma element_Returned {A} (l : list A) i x :
  element l i = Returned x <-> nth_error l i = Some x.
Proof.
  unfold element. destruct (nth_error l i); split; intros H; congruence.
Qed.

(** In a chronological series the window between two of its dates, taken in
    order, starts at the first and ends at the second. *)
Lemma window_bounds sorted closestStartDate closestEndDate :
  chronological sorted ->
  In closestStartDate (map date sorted) ->
  In closestEndDate (map date sorted) ->
  getTime closestStartDate <= getTime closestEndDate ->
  exists first last,
    let w := filter (inWindow closestStartDate closestEndDate) sorted in
    element w 0 = Returned first /\ element w (length w - 1) = Returned last
    /\ date first = closestStartDate /\ date last = closestEndDate.
Proof.
  intros Hs Hcs Hce Hle. cbv zeta.
  set (w := filter (inWindow closestStartDate closestEndDate) sorted).
  apply in_map_iff in Hcs. destruct Hcs as (ps & Eps & Hps).
  apply in_map_iff in Hce. destruct Hce as (pe & Epe & Hpe).
  assert (Hws : In ps w).
  { apply filter_In. split; [exact Hps|]. unfold inWindow, leb. rewrite Eps. lia. }
  assert (Hwe : In pe w).
  { apply filter_In. split; [exact Hpe|]. unfold inWindow, leb. rewrite Epe. lia. }
  assert (Hw : chronological w) by (apply chronological_filter, Hs).
  destruct (element_first_last w) as (first & last & Ef & El).
  { intros E. rewrite E in Hws. contradiction. }
  exists first, last. repeat split; try assumption.
  - apply element_Returned in Ef.
    pose proof (chronological_first w first ps Hw Ef Hws) as H1.
    pose proof (nth_error_In _ _ Ef) as Hin. apply filter_In in Hin.
    destruct Hin as [_ Hin]. unfold inWindow, leb in Hin.
    apply Date_eq. unfold notAfter in H1. rewrite Eps in H1. lia.
  - apply element_Returned in El.
    pose proof (chronological_last w last pe Hw El Hwe) as H1.
    pose proof (nth_error_In _ _ El) as Hin. apply filter_In in Hin.
    destruct Hin as [_ Hin]. unfold inWindow, leb in Hin.
    apply Date_eq. unfold notAfter in H1. rewrite Epe in H1. lia.
Qed.

(** The latest sample that is not in the future. *)
Lemma find_latest_Some today sorted p :
  In p sorted -> leb (date p) today = true ->
  exists latest,
    find (fun item => leb (date item) today) (rev sorted) = Some latest
    /\ In latest sorted /\ leb (date latest) today = true.
Proof.
  intros Hin Hp.
  destruct (find (fun item => leb (date item) today) (rev sorted)) as [q|] eqn:E.
  - exists q. apply find_some in E. destruct E as [E1 E2].
    rewrite <- in_rev in E1. auto.
  - exfalso. eapply find_none in E; [|rewrite <- in_rev; exact Hin].
    cbv beta in E. congruence.
Qed.

Lemma find_latest_None today sorted :
  (forall p, In p sorted -> leb (date p) today = false) ->
  find (fun item => leb (date item) today) (rev sorted) = None.
Proof.
  intros H.
  destruct (find (fun item => leb (date item) today) (rev sorted)) as [q|] eqn:E;
    [|reflexivity].
  apply find_some in E. destruct E as [E1 E2]. rewrite <- in_rev in E1.
  rewrite (H q E1) in E2. discriminate.
Qed.

(** ** The steps of processData *)

Lemma processData_cases h data p cp :
  processData h data p cp =
  match data with
  | [] => Returned emptyResult
  | _ :: _ =>
    let sorted := sortByDate data in
    match find (fun item => leb (date item) (newDate h)) (rev sorted) with
    | None => Returned emptyResult
    | Some latest =>
      range <- targetRange h sorted latest p cp ;;
      match findClosestDate (snd range) (map date sorted),
            findClosestDate (fst range) (map date sorted) with
      | Some cs, Some ce =>
          let w := filter (inWindow cs ce) sorted in
          first <- element w 0 ;;
          last <- element w (length w - 1) ;;
          inception <- element sorted 0 ;;
          Returned (resolution h sorted p cs ce first last inception)
      | _, _ => Returned emptyResult
      end
    end
  end.
Proof.
  unfold processData, targetRange.
  destruct data as [|d0 data']; [reflexivity|]. cbv zeta.
  destruct (find _ _) as [latest|]; [|reflexivity].
  destruct p, cp as [c|]; cbn [fst snd]; try reflexivity;
    destruct (element (sortByDate (d0 :: data')) 0); reflexivity.
Qed.

Lemma localDate_components h y m d :
  0 <= m <= 11 -> 1 <= d <= DaysInMonth y m ->
  getFullYear h (localDate h y m d) = y /\ getMonth h (localDate h y m d) = m
  /\ getDate h (localDate h y m d) = d.
Proof.
  intros Hm Hd. unfold getFullYear, getMonth, getDate, localDate. cbn [getTime].
  rewrite LocalTime_UTC.
  destruct (components_MakeDate y m d 0 Hm Hd ltac:(unfold msPerDay; lia))
    as (A & B & C & _).
  auto.
Qed.

Lemma calculateYearFrac_ordered h s e :
  getTime s <= getTime e ->
  let startDay := if getDate h s =? 31 then 30 else getDate h s in
  let endDay :=
    if (getDate h e =? 31) && (30 <=? startDay) then 30 else getDate h e in
  calculateYearFrac h s e
  = (Z2F ((getFullYear h e - getFullYear h s) * 360
          + ((getMonth h e + 1) - (getMonth h s + 1)) * 30
          + (endDay - startDay)) / 360)%float.
Proof.
  intros Hle. unfold calculateYearFrac, gtb.
  destruct (Z.ltb_spec (getTime e) (getTime s)); [lia|reflexivity].
Qed.

Lemma localDate_le h y1 m1 y2 m2 d :
  0 <= m1 <= 11 -> 0 <= m2 <= 11 -> y1 < y2 \/ (y1 = y2 /\ m1 <= m2) ->
  getTime (localDate h y1 m1 d) <= getTime (localDate h y2 m2 d).
Proof.
  intros H1 H2 Hlex. unfold localDate. cbn [getTime]. unfold UTC.
  apply Z.sub_le_mono_r. apply MakeDate_le, MakeDay_le; assumption.
Qed.

Lemma calculateYearFrac_2015_2025 h :
  calculateYearFrac h (localDate h 2015 2 31) (localDate h 2025 2 31) = 10%float.
Proof.
  rewrite calculateYearFrac_ordered by (apply localDate_le; lia).
  destruct (localDate_components h 2015 2 31) as (A & B & C);
    [lia|cbn; lia|].
  destruct (localDate_components h 2025 2 31) as (A' & B' & C');
    [lia|cbn; lia|].
  cbv zeta. rewrite A, B, C, A', B', C'. reflexivity.
Qed.

(** What a returned record is made of. *)
Lemma processData_Returned h data p cp r :
  processData h data p cp = Returned r ->
  r = emptyResult
  \/ exists cs ce first last inception,
       let sorted := sortByDate data in
       let w := filter (inWindow cs ce) sorted in
       In cs (map date sorted) /\ In ce (map date sorted)
       /\ element w 0 = Returned first
       /\ element w (length w - 1) = Returned last
       /\ element sorted 0 = Returned inception
       /\ r = resolution h sorted p cs ce first last inception.
Proof.
  rewrite processData_cases.
  destruct data as [|d0 data']; [intros [= <-]; now left|]. cbv zeta.
  set (sorted := sortByDate (d0 :: data')).
  destruct (find _ _) as [latest|]; [|intros [= <-]; now left].
  destruct (targetRange h sorted latest p cp) as [[te ts]|]; [|discriminate].
  cbn [fst snd].
  destruct (findClosestDate ts (map date sorted)) as [cs|] eqn:Hcs.
  2:{ cbv beta iota. intros E. injection E as <-. now left. }
  destruct (findClosestDate te (map date sorted)) as [ce|] eqn:Hce.
  2:{ cbv beta iota. intros E. injection E as <-. now left. }
  cbv beta iota zeta.
  destruct (element (filter (inWindow cs ce) sorted) 0) as [first|] eqn:Ef;
    [|intros E; discriminate E].
  destruct (element (filter (inWindow cs ce) sorted)
              (length (filter (inWindow cs ce) sorted) - 1)) as [last|] eqn:El;
    [|intros E; discriminate E].
  destruct (element sorted 0) as [inception|] eqn:Ei;
    [|intros E; discriminate E].
  intros E. injection E as <-. right. exists cs, ce, first, last, inception.
  repeat split; eauto using findClosestDate_In.
Qed.

Lemma sortByDate_nonempty data : data <> [] -> sortByDate data <> [].
Proof.
  intros Hne E. apply Hne. apply length_zero_iff_nil.
  rewrite <- sortByDate_length, E. reflexivity.
Qed.

Lemma element_head {A} (l : list A) : l <> [] -> exists x, element l 0 = Returned x.
Proof. destruct l as [|x l]; [congruence|]. intros _. exists x. reflexivity. Qed.

Lemma chronological_dates l :
  chronological l ->
  forall i j di dj, (i <= j)%nat -> nth_error (map date l) i = Some di ->
    nth_error (map date l) j = Some dj -> getTime di <= getTime dj.
Proof.
  unfold chronological.
  induction 1 as [|a l Hl IH Ha]; intros i j di dj Hij Hi Hj.
  - destruct i; discriminate.
  - destruct i as [|i], j as [|j]; cbn in Hi, Hj; try lia.
    + injection Hi as <-. injection Hj as <-. lia.
    + injection Hi as <-. rewrite Forall_forall in Ha.
      apply nth_error_In, in_map_iff in Hj. destruct Hj as (x & <- & Hx).
      apply Ha, Hx.
    + apply (IH i j); try assumption; lia.
Qed.

Lemma exactDifferences_sorted targetDate data :
  exactDifferences targetDate (map date data) ->
  exactDifferences targetDate (map date (sortByDate data)).
Proof.
  intros X d Hd. apply in_map_iff in Hd. destruct Hd as (x & <- & Hx).
  apply X, in_map. apply (proj1 (sortByDate_In _ _)), Hx.
Qed.

(** The two targets of Step 3 are in order, and the end target is a sample's
    date unless it is the end of a custom period. *)
Lemma targetRange_ordered h sorted latest p cp :
  chronological sorted -> In latest sorted -> orderedPeriod p cp ->
  exists te ts,
    targetRange h sorted latest p cp = Returned (te, ts)
    /\ getTime ts <= getTime te
    /\ (In te (map date sorted)
        \/ exists c, p = Pcustom /\ cp = Some c
             /\ te = CustomPeriod.endDate c /\ ts = CustomPeriod.startDate c).
Proof.
  intros Hs Hl Hord.
  assert (Hne : sorted <> []) by (intros ->; contradiction).
  destruct (element_head sorted Hne) as [first0 E0].
  assert (Hfirst : getTime (date first0) <= getTime (date latest)).
  { apply element_Returned in E0.
    exact (chronological_first sorted first0 latest Hs E0 Hl). }
  unfold targetRange.
  destruct p; cbn [orderedPeriod] in Hord;
    try (eexists _, _; split; [reflexivity|]; split;
         [apply calculateStartDate_earlier; discriminate|left; apply in_map, Hl]).
  - rewrite E0. eexists _, _; split; [reflexivity|].
    split; [exact Hfirst|left; apply in_map, Hl].
  - destruct cp as [c|]; [|contradiction].
    eexists _, _; split; [reflexivity|]. split; [exact Hord|right].
    exists c. auto.
Qed.

Lemma processData_resolves h data p cp :
  usable h data -> orderedPeriod p cp -> measurablePeriod data p cp ->
  exists cs ce first last inception,
    let sorted := sortByDate data in
    let w := filter (inWindow cs ce) sorted in
    processData h data p cp
    = Returned (resolution h sorted p cs ce first last inception)
    /\ element w 0 = Returned first
    /\ element w (length w - 1) = Returned last
    /\ element sorted 0 = Returned inception
    /\ date first = cs /\ date last = ce
    /\ getTime cs <= getTime ce.
Proof.
  intros (q & Hq & Hnow) Hord Hex. cbv zeta.
  rewrite processData_cases.
  destruct data as [|d0 data']; [contradiction|]. cbv zeta.
  set (sorted := sortByDate (d0 :: data')) in *.
  assert (Hs : chronological sorted) by apply sortByDate_chronological.
  assert (Hne : sorted <> []) by (apply sortByDate_nonempty; discriminate).
  destruct (find_latest_Some (newDate h) sorted q) as (latest & -> & Hl & _).
  { apply sortByDate_In. exact Hq. }
  { unfold leb, newDate. cbn [getTime]. lia. }
  destruct (targetRange_ordered h sorted latest p cp Hs Hl Hord)
    as (te & ts & -> & Hle & Hcase).
  cbn [fst snd].
  assert (Hdates : map date sorted <> []).
  { intros E. apply map_eq_nil in E. contradiction. }
  destruct (findClosestDate_spec ts (map date sorted) Hdates)
    as (k1 & cs & Ecs & _).
  destruct (findClosestDate_spec te (map date sorted) Hdates)
    as (k2 & ce & Ece & _).
  rewrite Ecs, Ece. cbv beta iota zeta.
  assert (Hcse : getTime cs <= getTime ce).
  { destruct Hcase as [Hin|(c & -> & -> & -> & ->)].
    - pose proof Ece as Ece'.
      rewrite (findClosestDate_exact te _ Hin) in Ece'. injection Ece' as <-.
      apply (findClosestDate_not_after ts te (map date sorted) cs);
        try assumption.
      apply chronological_dates, Hs.
    - destruct Hex as [Xs Xe].
      apply (findClosestDate_mono _ _ (map date sorted) cs ce
               (exactDifferences_sorted _ _ Xs) (exactDifferences_sorted _ _ Xe)
               Hle Ecs Ece). }
  destruct (window_bounds sorted cs ce Hs
              (findClosestDate_In _ _ _ Ecs) (findClosestDate_In _ _ _ Ece) Hcse)
    as (first & last & Ef & El & Df & Dl).
  cbv zeta in Ef, El.
  destruct (element_head sorted Hne) as [inception Ei].
  exists cs, ce, first, last, inception.
  rewrite Ef, El, Ei. repeat split; auto.
Qed.

(** ** What processData takes from the host *)

Lemma calculateYearFrac_host h1 h2 s e :
  LocalTZA h1 = LocalTZA h2 -> calculateYearFrac h1 s e = calculateYearFrac h2 s e.
Proof.
  intros E. unfold calculateYearFrac, getFullYear, getMonth, getDate, LocalTime.
  rewrite E. reflexivity.
Qed.

Lemma calculateStartDate_host h1 h2 p e :
  LocalTZA h1 = LocalTZA h2 -> calculateStartDate h1 p e = calculateStartDate h2 p e.
Proof.
  intros E.
  unfold calculateStartDate, setDate, setMonth, setFullYear, getFullYear, getMonth,
    UTC, LocalTime.
  cbn [getTime]. rewrite E. reflexivity.
Qed.

Lemma find_ext_in {A} (f g : A -> bool) l :
  (forall x, In x l -> f x = g x) -> find f l = find g l.
Proof.
  induction l as [|a l IH]; intros H; [reflexivity|]. cbn [find].
  rewrite (H a (or_introl eq_refl)), IH; [reflexivity|].
  intros x Hx. apply H. now right.
Qed.

(** ** Calendar order and the day count *)

Lemma Day_le t1 t2 : t1 <= t2 -> Day t1 <= Day t2.
Proof. unfold Day, msPerDay. lia. Qed.

Lemma MonthStart_next leap j m :
  (leap = 0 \/ leap = 1) -> 0 <= j -> j < m -> m <= 11 ->
  MonthStart leap j
  + match j with 1 => 28 + leap | 3 | 5 | 8 | 10 => 30 | _ => 31 end
  <= MonthStart leap m.
Proof.
  intros Hl Hj Hjm Hm.
  assert (Hj' : 0 <= j <= 11) by lia.
  assert (Hm' : 0 <= m <= 11) by lia.
  revert Hjm. month_cases j; month_cases m; cbv beta iota delta [MonthStart]; lia.
Qed.

(** Later instants have later calendar days. *)
Lemma civil_le t1 t2 :
  t1 <= t2 ->
  YearFromTime t1 < YearFromTime t2
  \/ (YearFromTime t1 = YearFromTime t2
      /\ (MonthFromTime t1 < MonthFromTime t2
          \/ (MonthFromTime t1 = MonthFromTime t2
              /\ DateFromTime t1 <= DateFromTime t2))).
Proof.
  intros Hle. apply Day_le in Hle.
  pose proof (YearFromTime_spec t1) as S1. pose proof (YearFromTime_spec t2) as S2.
  destruct (Z.lt_trichotomy (YearFromTime t1) (YearFromTime t2)) as [L|[E|G]];
    [now left| |].
  2:{ pose proof (DayFromYear_le (YearFromTime t2 + 1) (YearFromTime t1) ltac:(lia)).
      lia. }
  right. split; [exact E|].
  pose proof (DayWithinYear_range t1) as R1.
  pose proof (DayWithinYear_range t2) as R2.
  pose proof (LeapDays_cases (YearFromTime t1)) as Hl.
  assert (EL : InLeapYear t2 = InLeapYear t1) by (unfold InLeapYear; now rewrite E).
  assert (HW : DayWithinYear t1 <= DayWithinYear t2)
    by (unfold DayWithinYear; rewrite E; lia).
  pose proof (month_date_of_day (InLeapYear t1) (DayWithinYear t1) Hl R1) as M1.
  rewrite EL in R2.
  pose proof (month_date_of_day (InLeapYear t1) (DayWithinYear t2) Hl R2) as M2.
  cbv zeta in M1, M2.
  assert (E1 : MonthFromTime t1 = MonthFromTime t1) by reflexivity.
  unfold MonthFromTime at 2 in E1. cbv zeta in E1. rewrite <- E1 in M1. clear E1.
  assert (E2 : MonthFromTime t2 = MonthFromTime t2) by reflexivity.
  unfold MonthFromTime at 2 in E2. cbv zeta in E2. rewrite EL in E2.
  rewrite <- E2 in M2. clear E2.
  destruct M1 as [B1 W1]. destruct M2 as [B2 W2].
  destruct (Z.lt_trichotomy (MonthFromTime t1) (MonthFromTime t2)) as [L|[Em|G]];
    [now left| |].
  - right. split; [exact Em|]. unfold DateFromTime. rewrite EL, Em. lia.
  - exfalso.
    pose proof (MonthStart_next (InLeapYear t1) (MonthFromTime t2) (MonthFromTime t1)
                  Hl ltac:(lia) G ltac:(lia)).
    lia.
Qed.

(** The 30/360 day count of two dates in order is never negative. *)
Lemma day_count_nonneg h s e :
  getTime s <= getTime e ->
  let startDay := if getDate h s =? 31 then 30 else getDate h s in
  let endDay :=
    if (getDate h e =? 31) && (30 <=? startDay) then 30 else getDate h e in
  0 <= (getFullYear h e - getFullYear h s) * 360
       + ((getMonth h e + 1) - (getMonth h s + 1)) * 30
       + (endDay - startDay).
Proof.
  intros Hle.
  assert (Hl : LocalTime h (getTime s) <= LocalTime h (getTime e))
    by (unfold LocalTime; lia).
  pose proof (civil_le _ _ Hl) as C.
  pose proof (getMonth_range h s). pose proof (getMonth_range h e).
  pose proof (getDate_range h s). pose proof (getDate_range h e).
  unfold getFullYear, getMonth, getDate in *. cbv zeta.
  destruct (Z.eqb_spec (DateFromTime (LocalTime h (getTime s))) 31),
    (Z.eqb_spec (DateFromTime (LocalTime h (getTime e))) 31); cbn [andb];
    try match goal with |- context [30 <=? ?x] => destruct (Z.leb_spec 30 x) end;
    lia.
Qed.

Lemma calculateYearFrac_swap h a b :
  calculateYearFrac h a b = calculateYearFrac h b a.
Proof.
  unfold calculateYearFrac, gtb.
  destruct (Z.ltb_spec (getTime b) (getTime a)), (Z.ltb_spec (getTime a) (getTime b));
    try reflexivity; try lia.
  assert (a = b) as -> by (apply Date_eq; lia). reflexivity.
Qed.

Lemma filteredData_spec h data p cp r cs ce :
  processData h data p cp = Returned r ->
  startDate r = Some cs -> endDate r = Some ce ->
  chronological (filteredData r)
  /\ forall q, In q (filteredData r)
               <-> In q data /\ getTime cs <= getTime (date q) <= getTime ce.
Proof.
  intros H Hs He.
  destruct (processData_Returned h data p cp r H)
    as [->|(cs' & ce' & first & last & inception & _ & _ & _ & _ & _ & ->)];
    [discriminate|].
  cbn in Hs, He. injection Hs as ->. injection He as ->.
  cbn [filteredData resolution]. split.
  - apply chronological_filter, sortByDate_chronological.
  - intros q. rewrite filter_In, sortByDate_In. unfold inWindow, leb.
    rewrite andb_true_iff, !Z.leb_le. tauto.
Qed.

(** ** More on the steps of processData *)

Lemma filter_none {A} (f : A -> bool) l :
  (forall x, In x l -> f x = false) -> filter f l = [].
Proof.
  induction l as [|a l IH]; intros H; [reflexivity|]. cbn [filter].
  rewrite (H a (or_introl eq_refl)). apply IH. intros x Hx. apply H. now right.
Qed.

Lemma filter_all {A} (f : A -> bool) l :
  (forall x, In x l -> f x = true) -> filter f l = l.
Proof.
  induction l as [|a l IH]; intros H; [reflexivity|]. cbn [filter].
  rewrite (H a (or_introl eq_refl)). f_equal. apply IH. intros x Hx. apply H. now right.
Qed.

(** Scanning a chronological series from its end, the first sample not after
    [today] is the latest such sample. *)
Lemma find_latest_is_latest today sorted latest :
  chronological sorted ->
  find (fun item => leb (date item) today) (rev sorted) = Some latest ->
  forall q, In q sorted -> leb (date q) today = true -> notAfter q latest.
Proof.
  unfold chronological.
  induction sorted as [|a l IH] using rev_ind; intros Hs Hf q Hq Hqt;
    [contradiction|].
  rewrite rev_app_distr in Hf. cbn [rev app find] in Hf.
  assert (Hl : StronglySorted notAfter l /\ Forall (fun x => notAfter x a) l).
  { clear -Hs. induction l as [|b l IH]; [split; constructor|].
    cbn [app] in Hs. inversion Hs as [|? ? Hs' Hb]; subst.
    destruct (IH Hs') as [S F]. split.
    - constructor; [exact S|]. rewrite Forall_forall in *. intros x Hx.
      apply Hb, in_or_app. now left.
    - constructor; [|exact F]. rewrite Forall_forall in Hb.
      apply Hb, in_or_app. right. now left. }
  destruct Hl as [Sl Fl].
  destruct (leb (date a) today) eqn:Ea.
  - injection Hf as <-. apply in_app_or in Hq.
    destruct Hq as [Hq|[<-|[]]]; [|unfold notAfter; lia].
    rewrite Forall_forall in Fl. auto.
  - apply in_app_or in Hq. destruct Hq as [Hq|[<-|[]]]; [|congruence].
    exact (IH Sl Hf q Hq Hqt).
Qed.

Lemma preset_end_latest h data p cp r ce :
  processData h data p cp = Returned r -> endDate r = Some ce ->
  p <> Pcustom \/ cp = None ->
  getTime ce <= currentTime h
  /\ forall q, In q data -> getTime (date q) <= currentTime h ->
               getTime (date q) <= getTime ce.
Proof.
  intros H He Hp. revert H. rewrite processData_cases.
  destruct data as [|d0 data']; [intros [= <-]; discriminate|]. cbv zeta.
  set (sorted := sortByDate (d0 :: data')).
  assert (Hs : chronological sorted) by apply sortByDate_chronological.
  destruct (find _ _) as [latest|] eqn:Hfind; [|intros [= <-]; discriminate].
  pose proof (find_latest_is_latest _ _ _ Hs Hfind) as Hmax.
  apply find_some in Hfind. destruct Hfind as [Hin Hnow].
  rewrite <- in_rev in Hin.
  assert ((exists ts, targetRange h sorted latest p cp = Returned (date latest, ts))
          \/ exists e, targetRange h sorted latest p cp = Thrown e)
    as [[ts ->] | [e ->]].
  { unfold targetRange.
    destruct p; try (left; eexists; reflexivity).
    - destruct (element sorted 0); [left|right]; eexists; reflexivity.
    - destruct Hp as [Hp| ->]; [congruence|]. left; eexists; reflexivity. }
  2:{ discriminate. }
  cbn [fst snd].
  rewrite (findClosestDate_exact (date latest)) by (apply in_map; exact Hin).
  destruct (findClosestDate ts _) as [cs|]; [|intros [= <-]; discriminate].
  cbv beta iota zeta.
  destruct (element _ 0) as [first|]; [|discriminate].
  destruct (element (filter _ _) _) as [lst|]; [|discriminate].
  destruct (element sorted 0) as [inception|]; [|discriminate].
  intros [= <-]. cbn in He. injection He as <-.
  unfold leb, newDate in Hnow. cbn [getTime] in Hnow.
  split; [lia|].
  intros q Hq Hqn. apply (Hmax q).
  - apply sortByDate_In. exact Hq.
  - unfold leb, newDate. cbn [getTime]. lia.
Qed.

Lemma inception_earliest h data p cp r d :
  processData h data p cp = Returned r -> inceptionStartDate r = Some d ->
  (exists q, In q data /\ date q = d /\ inceptionStartValue r = Some (value q))
  /\ forall q, In q data -> getTime d <= getTime (date q).
Proof.
  intros H Hd.
  destruct (processData_Returned h data p cp r H)
    as [->|(cs & ce & first & last & inception & _ & _ & _ & _ & Ei & ->)];
    [discriminate|].
  cbn in Hd. injection Hd as <-. cbv zeta in Ei.
  apply element_Returned in Ei. split.
  - exists inception. repeat split.
    apply (proj1 (sortByDate_In _ _)). eapply nth_error_In, Ei.
  - intros q Hq.
    apply (chronological_first (sortByDate data) inception q
             (sortByDate_chronological data) Ei).
    apply sortByDate_In, Hq.
Qed.

Lemma processData_since_inception_start h data cp r :
  processData h data Psi cp = Returned r -> startDate r = inceptionStartDate r.
Proof.
  rewrite processData_cases.
  destruct data as [|d0 data']; [intros [= <-]; reflexivity|]. cbv zeta.
  set (sorted := sortByDate (d0 :: data')).
  destruct (find _ _) as [latest|]; [|intros [= <-]; reflexivity].
  unfold targetRange.
  destruct (element sorted 0) as [first0|] eqn:E0; [|discriminate].
  cbn [fst snd].
  rewrite (findClosestDate_exact (date first0)).
  2:{ apply in_map. apply element_Returned in E0. eapply nth_error_In, E0. }
  destruct (findClosestDate (date latest) _) as [ce|]; [|intros [= <-]; reflexivity].
  cbv beta iota zeta.
  destruct (element (filter _ _) 0) as [first|]; [|discriminate].
  destruct (element (filter _ _) _) as [lst|]; [|discriminate].
  intros [= <-]. reflexivity.
Qed.

Lemma last_nth_error {A} (l : list A) (d : A) :
  l <> [] -> nth_error l (length l - 1) = Some (last l d).
Proof.
  induction l as [|a l IH]; [congruence|]. intros _.
  destruct l as [|b l']; [reflexivity|].
  replace (length (a :: b :: l') - 1)%nat with (S (length (b :: l') - 1))
    by (cbn [length]; lia).
  cbn [nth_error]. rewrite IH by discriminate. reflexivity.
Qed.

Lemma processData_nonempty h data p cp :
  data <> [] ->
  processData h data p cp =
  match find (fun item => leb (date item) (newDate h)) (rev (sortByDate data)) with
  | None => Returned emptyResult
  | Some latest =>
      range <- targetRange h (sortByDate data) latest p cp ;;
      match findClosestDate (snd range) (map date (sortByDate data)),
            findClosestDate (fst range) (map date (sortByDate data)) with
      | Some cs, Some ce =>
          let w := filter (inWindow cs ce) (sortByDate data) in
          first <- element w 0 ;;
          last <- element w (length w - 1) ;;
          inception <- element (sortByDate data) 0 ;;
          Returned (resolution h (sortByDate data) p cs ce first last inception)
      | _, _ => Returned emptyResult
      end
  end.
Proof.
  intros Hne. rewrite processData_cases.
  destruct data; [congruence|reflexivity].
Qed.

(** ** Series without repeated dates *)

Lemma chronological_distinct_strict l :
  chronological l -> distinctDates l -> StronglySorted before l.
Proof.
  unfold chronological, distinctDates.
  induction 1 as [|a l Hl IH Ha]; intros Hd; [constructor|].
  cbn [map] in Hd. inversion Hd as [|? ? Hnotin Hd']; subst.
  constructor; [exact (IH Hd')|].
  rewrite Forall_forall in *. intros x Hx. specialize (Ha x Hx).
  unfold notAfter in Ha. unfold before.
  assert (getTime (date a) <> getTime (date x)).
  { intros E. apply Hnotin. rewrite E.
    apply (in_map (fun q => getTime (date q))), Hx. }
  lia.
Qed.

Lemma strict_sorted_unique l1 :
  forall l2, StronglySorted before l1 -> StronglySorted before l2 ->
             Permutation l1 l2 -> l1 = l2.
Proof.
  induction l1 as [|a l1 IH]; intros l2 S1 S2 P.
  - apply Permutation_nil in P. now subst.
  - destruct l2 as [|b l2]; [apply Permutation_sym, Permutation_nil in P; discriminate|].
    inversion S1 as [|? ? S1' F1]; subst. inversion S2 as [|? ? S2' F2]; subst.
    rewrite Forall_forall in F1, F2.
    assert (a = b).
    { assert (Ha : In a (b :: l2)) by (eapply Permutation_in; [exact P|now left]).
      assert (Hb : In b (a :: l1))
        by (eapply Permutation_in; [symmetry; exact P|now left]).
      destruct Ha as [->|Ha]; [reflexivity|].
      destruct Hb as [->|Hb]; [reflexivity|].
      specialize (F1 b Hb). specialize (F2 a Ha). unfold before in *. lia. }
    subst b. f_equal. apply IH; try assumption.
    eapply Permutation_cons_inv, P.
Qed.

Lemma sortByDate_permutation data1 data2 :
  Permutation data1 data2 -> distinctDates data1 ->
  sortByDate data1 = sortByDate data2.
Proof.
  intros P D.
  assert (P' : Permutation (sortByDate data1) (sortByDate data2)).
  { rewrite !sortByDate_perm. exact P. }
  assert (D1 : distinctDates (sortByDate data1)).
  { unfold distinctDates in *.
    eapply Permutation_NoDup; [|exact D].
    apply Permutation_map. symmetry. apply sortByDate_perm. }
  assert (D2 : distinctDates (sortByDate data2)).
  { unfold distinctDates in *.
    eapply Permutation_NoDup; [|exact D1].
    apply Permutation_map. exact P'. }
  apply strict_sorted_unique; try exact P';
    apply chronological_distinct_strict; auto using sortByDate_chronological.
Qed.

Lemma resolution_window_nonempty h data p cs ce first last inception :
  element (filter (inWindow cs ce) (sortByDate data)) 0 = Returned first ->
  filteredData (resolution h (sortByDate data) p cs ce first last inception) <> [].
Proof.
  intros Ef E. cbn [filteredData resolution] in E. rewrite E in Ef. discriminate.
Qed.

Lemma calculateYearFrac_same h d : calculateYearFrac h d d = 0%float.
Proof.
  rewrite calculateYearFrac_ordered by lia. cbv zeta.
  replace ((getFullYear h d - getFullYear h d) * 360
           + (getMonth h d + 1 - (getMonth h d + 1)) * 30
           + ((if (getDate h d =? 31)
                  && (30 <=? (if getDate h d =? 31 then 30 else getDate h d))
               then 30 else getDate h d)
              - (if getDate h d =? 31 then 30 else getDate h d))) with 0.
  - reflexivity.
  - destruct (Z.eqb_spec (getDate h d) 31); cbn [andb];
      try match goal with |- context [30 <=? ?x] => destruct (Z.leb_spec 30 x) end;
      lia.
Qed.

Lemma simple_return_of_self x : finite_nonzero x = true -> (x / x - 1)%float = 0%float.
Proof. intros H. rewrite (div_self x H). reflexivity. Qed.

(** ** The sign of the year fraction *)

Lemma shr_1_nonneg mrs : 0 <= shr_m mrs -> 0 <= shr_m (shr_1 mrs).
Proof.
  destruct mrs as [m r s]. cbn [shr_m]. intros H. unfold shr_1.
  destruct m as [|p|p]; [cbn; lia| |lia].
  destruct p; cbn; lia.
Qed.

Lemma iter_pos_shr_1_nonneg p :
  forall mrs, 0 <= shr_m mrs -> 0 <= shr_m (iter_pos shr_1 p mrs).
Proof.
  induction p as [p IH|p IH|]; intros mrs H; cbn [iter_pos].
  - apply IH, IH, shr_1_nonneg, H.
  - apply IH, IH, H.
  - apply shr_1_nonneg, H.
Qed.

Lemma shr_fexp_nonneg m e l :
  0 <= m -> 0 <= shr_m (fst (shr_fexp prec emax m e l)).
Proof.
  intros H. unfold shr_fexp, shr.
  assert (H0 : 0 <= shr_m (shr_record_of_loc m l))
    by (destruct l as [|[]]; exact H).
  destruct (fexp prec emax (Zdigits2 m + e) - e) as [|p|p]; cbn [fst];
    try exact H0.
  apply iter_pos_shr_1_nonneg, H0.
Qed.

Lemma round_nearest_even_nonneg m l : 0 <= m -> 0 <= round_nearest_even m l.
Proof.
  intros H. unfold round_nearest_even.
  destruct l as [|[]]; try lia. destruct (Z.even m); lia.
Qed.

Lemma binary_round_aux_nonneg m e l :
  0 <= m -> nonnegSF (binary_round_aux prec emax false m e l) = true.
Proof.
  intros H. unfold binary_round_aux.
  pose proof (shr_fexp_nonneg m e l H) as H1.
  destruct (shr_fexp prec emax m e l) as [mrs' e']. cbn [fst] in H1.
  pose proof (shr_fexp_nonneg _ e' loc_Exact
                (round_nearest_even_nonneg _ (loc_of_shr_record mrs') H1)) as H2.
  destruct (shr_fexp prec emax _ e' loc_Exact) as [mrs'' e'']. cbn [fst] in H2.
  destruct (shr_m mrs'') as [|p|p]; [reflexivity| |lia].
  destruct (e'' <=? emax - prec); reflexivity.
Qed.

Lemma binary_normalize_nonneg z :
  0 <= z -> nonnegSF (binary_normalize prec emax z 0 false) = true.
Proof.
  intros H. unfold binary_normalize.
  destruct z as [|p|p]; [reflexivity| |lia].
  unfold binary_round.
  destruct (shl_align p 0 _) as [mz ez].
  apply binary_round_aux_nonneg. lia.
Qed.

Lemma Z2F_spec z :
  0 <= z < 2 ^ 63 -> Prim2SF (Z2F z) = binary_normalize prec emax z 0 false.
Proof.
  intros H. unfold Z2F.
  pose proof (of_uint63_spec (Uint63.of_Z z)) as E.
  rewrite Uint63.of_Z_spec in E.
  rewrite Z.mod_small in E by (change Uint63.wB with (2 ^ 63); lia).
  rewrite <- E. rewrite SF2Prim_Prim2SF. reflexivity.
Qed.

Lemma SF64div_nonneg x y :
  nonnegSF x = true -> nonnegSF y = true -> 
  match y with S754_finite _ _ _ => True | _ => False end ->
  nonnegSF (SF64div x y) = true.
Proof.
  intros Hx Hy Hf.
  destruct y as [| | |sy my ey]; try contradiction.
  destruct sy; [discriminate|].
  destruct x as [[]|[]| |[] mx ex]; try discriminate; try reflexivity.
  unfold SF64div, SFdiv, SFdiv_core_binary. cbn [xorb].
  set (m' := match _ with 0 => Z.pos mx | Z.pos _ => _ | Z.neg _ => 0 end).
  assert (Hm' : 0 <= m').
  { subst m'. destruct (_ - _) as [|p|p]; try lia.
    apply Z.shiftl_nonneg. lia. }
  pose proof (Z.div_pos m' (Z.pos my) Hm' ltac:(lia)) as Hq.
  unfold Z.div in Hq.
  destruct (Z.div_eucl m' (Z.pos my)) as [q r]. cbn [fst] in Hq.
  apply binary_round_aux_nonneg, Hq.
Qed.

Lemma leb_zero_nonneg x : nonnegSF (Prim2SF x) = true -> (0 <=? x)%float = true.
Proof.
  rewrite leb_spec. change (Prim2SF 0) with (S754_zero false).
  destruct (Prim2SF x) as [[]|[]| |[] m e]; try discriminate; reflexivity.
Qed.

Lemma quotient_by_360_nonneg days :
  0 <= days < 2 ^ 63 -> (0 <=? Z2F days / 360)%float = true.
Proof.
  intros H. apply leb_zero_nonneg. rewrite div_spec, (Z2F_spec days H).
  apply SF64div_nonneg.
  - apply binary_normalize_nonneg. lia.
  - reflexivity.
  - vm_compute. exact I.
Qed.

Lemma YearFromTime_bound t :
  Z.abs t <= 8640000086400000 -> -300000 <= YearFromTime t <= 300000.
Proof.
  intros H. pose proof (YearFromTime_spec t) as S.
  assert (HD : -100000001 <= Day t <= 100000001)
    by (unfold Day, msPerDay; lia).
  unfold DayFromYear in S. lia.
Qed.

Lemma getFullYear_bound h d :
  plausibleZone h -> inTimeRange d -> -300000 <= getFullYear h d <= 300000.
Proof.
  unfold plausibleZone, inTimeRange, getFullYear, LocalTime, msPerDay.
  intros Hz Hd. apply YearFromTime_bound. lia.
Qed.

Lemma day_count_bound h s e :
  plausibleZone h -> inTimeRange s -> inTimeRange e ->
  let startDay := if getDate h s =? 31 then 30 else getDate h s in
  let endDay :=
    if (getDate h e =? 31) && (30 <=? startDay) then 30 else getDate h e in
  (getFullYear h e - getFullYear h s) * 360
  + ((getMonth h e + 1) - (getMonth h s + 1)) * 30
  + (endDay - startDay) < 2 ^ 63.
Proof.
  intros Hz Hs He.
  pose proof (getFullYear_bound h s Hz Hs). pose proof (getFullYear_bound h e Hz He).
  pose proof (getMonth_range h s). pose proof (getMonth_range h e).
  pose proof (getDate_range h s). pose proof (getDate_range h e).
  cbv zeta.
  destruct (Z.eqb_spec (getDate h s) 31), (Z.eqb_spec (getDate h e) 31); cbn [andb];
    try match goal with |- context [30 <=? ?x] => destruct (Z.leb_spec 30 x) end;
    change (2 ^ 63) with 9223372036854775808; lia.
Qed.

Lemma calculateYearFrac_ordered_nonneg h s e :
  plausibleZone h -> inTimeRange s -> inTimeRange e -> getTime s <= getTime e ->
  (0 <=? calculateYearFrac h s e)%float = true.
Proof.
  intros Hz Hs He Hle.
  rewrite (calculateYearFrac_ordered h s e Hle). cbv zeta.
  apply quotient_by_360_nonneg. split.
  - exact (day_count_nonneg h s e Hle).
  - exact (day_count_bound h s e Hz Hs He).
Qed.

(** At least 1 is at least 1/12. *)
Lemma leb_one_twelfth x : (1 <=? x)%float = true -> (1 / 12 <=? x)%float = true.
Proof.
  rewrite !FloatAxioms.leb_spec.
  change (Prim2SF 1) with (S754_finite false 4503599627370496 (-52)).
  change (Prim2SF (1 / 12)) with (S754_finite false 6004799503160661 (-56)).
  destruct (Prim2SF x) as [[]|[]| |[] m e]; try discriminate; try reflexivity.
  unfold SFleb, SFcompare.
  destruct (Z.compare_spec (-52) e) as [<-|Hlt|Hgt].
  - intros _. reflexivity.
  - intros _.
    assert (E : (-56 ?= e) = Lt) by (apply Z.compare_lt_iff; lia).
    rewrite E. reflexivity.
  - discriminate.
Qed.

(** * The specification's claims *)

(** ** DateMath *)

(** C1.  For two dates in order, [calculateYearFrac] returns the US 30/360
    day count over 360: 360 days per year of difference, 30 per month and the
    difference of the days of month, where a start day 31 first becomes 30 and
    an end day 31 then becomes 30 when the adjusted start day is at least 30.
    From 31 March 2015 to 31 March 2025 it is exactly 10, in every zone. *)
Theorem calculateYearFrac_us_30_360 :
  (forall h s e,
     getTime s <= getTime e ->
     let startDay := if getDate h s =? 31 then 30 else getDate h s in
     let endDay :=
       if (getDate h e =? 31) && (30 <=? startDay) then 30 else getDate h e in
     calculateYearFrac h s e
     = (Z2F ((getFullYear h e - getFullYear h s) * 360
             + ((getMonth h e + 1) - (getMonth h s + 1)) * 30
             + (endDay - startDay)) / 360)%float)
  /\ (forall h,
        calculateYearFrac h (localDate h 2015 2 31) (localDate h 2025 2 31)
        = 10%float).
Proof.
  split; [exact calculateYearFrac_ordered|exact calculateYearFrac_2015_2025].
Qed.

(** C1, on 31 January and 31 March 2020: both days become 30, two months
    apart, 60 days. *)
Lemma calculateYearFrac_us_30_360_witness :
  getTime (localDate utcHost 2020 0 31) <= getTime (localDate utcHost 2020 2 31)
  /\ calculateYearFrac utcHost (localDate utcHost 2020 0 31)
       (localDate utcHost 2020 2 31)
     = (Z2F 60 / 360)%float.
Proof.
  assert (H : getTime (localDate utcHost 2020 0 31)
              <= getTime (localDate utcHost 2020 2 31))
    by (vm_compute; discriminate).
  split; [exact H|].
  rewrite (proj1 calculateYearFrac_us_30_360 utcHost _ _ H).
  vm_compute. reflexivity.
Defined.

(** C4, as the code has it.  [findClosestDate] returns [null] exactly on an
    empty candidate list; otherwise it returns a candidate, at the smallest
    index among those whose difference in time to the target, as binary64
    computes it, is least.  When every candidate is at most 2^53
    milliseconds from the target the differences are exact, and the
    candidate returned is the first of the closest ones. *)
Theorem findClosestDate_first_minimum targetDate dates :
  (findClosestDate targetDate dates = None <-> dates = [])
  /\ (dates <> [] ->
      exists k closest,
        findClosestDate targetDate dates = Some closest
        /\ nth_error dates k = Some closest
        /\ In closest dates
        /\ (forall j d, nth_error dates j = Some d ->
              timeDifference targetDate closest <= timeDifference targetDate d)
        /\ (forall j d, (j < k)%nat -> nth_error dates j = Some d ->
              timeDifference targetDate closest < timeDifference targetDate d)
        /\ (exactDifferences targetDate dates ->
            (forall j d, nth_error dates j = Some d ->
               Z.abs (getTime closest - getTime targetDate)
               <= Z.abs (getTime d - getTime targetDate))
            /\ (forall j d, (j < k)%nat -> nth_error dates j = Some d ->
                  Z.abs (getTime closest - getTime targetDate)
                  < Z.abs (getTime d - getTime targetDate)))).
Proof.
  split; [apply findClosestDate_None|].
  intros Hne.
  destruct (findClosestDate_spec targetDate dates Hne) as (k & c & E & Hk & A & B).
  exists k, c. do 5 (split; [solve [assumption | eapply nth_error_In, Hk]|]).
  intros Hex.
  pose proof (timeDifference_exact targetDate c (Hex c (nth_error_In _ _ Hk))) as Ec.
  split.
  - intros j d Hj. specialize (A j d Hj).
    rewrite Ec, (timeDifference_exact targetDate d (Hex d (nth_error_In _ _ Hj))) in A.
    exact A.
  - intros j d Hjk Hj. specialize (B j d Hjk Hj).
    rewrite Ec, (timeDifference_exact targetDate d (Hex d (nth_error_In _ _ Hj))) in B.
    exact B.
Qed.

(** C4, on a tie: 30 March and 1 April 2015 are both one day from 31 March;
    the one met first is returned. *)
Lemma findClosestDate_first_minimum_witness :
  exists k closest,
    findClosestDate (localDate utcHost 2015 2 31)
      [localDate utcHost 2015 2 30; localDate utcHost 2015 3 1]
    = Some closest
    /\ nth_error [localDate utcHost 2015 2 30; localDate utcHost 2015 3 1] k
       = Some closest
    /\ (forall j d,
          nth_error [localDate utcHost 2015 2 30; localDate utcHost 2015 3 1] j
          = Some d ->
          Z.abs (getTime closest - getTime (localDate utcHost 2015 2 31))
          <= Z.abs (getTime d - getTime (localDate utcHost 2015 2 31)))
    /\ (forall j d, (j < k)%nat ->
          nth_error [localDate utcHost 2015 2 30; localDate utcHost 2015 3 1] j
          = Some d ->
          Z.abs (getTime closest - getTime (localDate utcHost 2015 2 31))
          < Z.abs (getTime d - getTime (localDate utcHost 2015 2 31))).
Proof.
  destruct (proj2 (findClosestDate_first_minimum (localDate utcHost 2015 2 31)
                     [localDate utcHost 2015 2 30; localDate utcHost 2015 3 1])
              ltac:(discriminate))
    as (k & closest & E & Hk & _ & _ & _ & Hexact).
  exists k, closest. split; [exact E|]. split; [exact Hk|].
  apply Hexact.
  intros d [<-|[<-|[]]]; vm_compute; discriminate.
Defined.

(** C4 fails as stated at the two ends of the range of [Date].  From the
    earliest instant a [Date] can hold, the latest one is 17280000000000000
    milliseconds away and the millisecond before it 17279999999999999;
    binary64 rounds the second number to the first, the scan sees a tie and
    keeps the candidate it met first, which is not the closest. *)
Lemma findClosestDate_rounds_large_differences :
  inTimeRange earliestDate /\ inTimeRange latestDate
  /\ inTimeRange nextToLatestDate
  /\ findClosestDate earliestDate [latestDate; nextToLatestDate] = Some latestDate
  /\ Z.abs (getTime nextToLatestDate - getTime earliestDate)
     < Z.abs (getTime latestDate - getTime earliestDate).
Proof.
  unfold inTimeRange. repeat split; try (vm_compute; discriminate).
Qed.



(** ** PeriodEngine *)

(** C2.  In every resolution that is returned with its dates and values,
    the return is the simple return [endValue / startValue - 1] when the
    result is not annualized, and when it is: the compound annual growth rate
    [(endValue / startValue) ^ (1 / years) - 1] if
    [years = calculateYearFrac closestStart closestEnd] is at least 1/12, the
    simple return otherwise.  The start value need not be non-zero. *)
Theorem processData_return_formula h data p cp r cs ce sv ev :
  processData h data p cp = Returned r ->
  startDate r = Some cs -> endDate r = Some ce ->
  startValue r = Some sv -> endValue r = Some ev ->
  returnValue r
  = Some (if isAnnualized r then
            let years := calculateYearFrac h cs ce in
            if (1 / 12 <=? years)%float
            then (Math_pow h (ev / sv) (1 / years) - 1)%float
            else (ev / sv - 1)%float
          else (ev / sv - 1)%float).
Proof.
  intros H Hs He Hsv Hev.
  destruct (processData_Returned h data p cp r H)
    as [->|(cs' & ce' & first & last & inception & _ & _ & _ & _ & _ & ->)];
    [discriminate|].
  cbn in Hs, He, Hsv, Hev.
  injection Hs as ->. injection He as ->. injection Hsv as <-. injection Hev as <-.
  reflexivity.
Qed.

(** C2, on [seriesA] over one year. *)
Lemma processData_return_formula_witness :
  processData utcHost seriesA P1y None = Returned seriesA_1y
  /\ returnValue seriesA_1y
     = Some (Math_pow utcHost (121 / 100)
               (1 / calculateYearFrac utcHost (localDate utcHost 2020 0 1)
                      (localDate utcHost 2021 0 1)) - 1)%float.
Proof.
  assert (H : processData utcHost seriesA P1y None = Returned seriesA_1y)
    by (vm_compute; reflexivity).
  split; [exact H|].
  rewrite (processData_return_formula utcHost seriesA P1y None seriesA_1y
             (localDate utcHost 2020 0 1) (localDate utcHost 2021 0 1)
             100%float 121%float H eq_refl eq_refl eq_refl eq_refl).
  vm_compute. reflexivity.
Defined.

(** C3.  In every resolution that is returned with its dates, the result is
    annualized exactly when the period is custom and the year fraction
    between the resolved dates is at least 1, or the period is one of 1y, 3y,
    5y, 10y, 15y, 20y and si; for 1m, 3m and ytd it never is. *)
Theorem processData_annualization h data p cp r cs ce :
  processData h data p cp = Returned r ->
  startDate r = Some cs -> endDate r = Some ce ->
  (isAnnualized r = true <->
     (p = Pcustom /\ (1 <=? calculateYearFrac h cs ce)%float = true)
     \/ In p [P1y; P3y; P5y; P10y; P15y; P20y; Psi])
  /\ (In p [P1m; P3m; Pytd] -> isAnnualized r = false).
Proof.
  intros H Hs He.
  destruct (processData_Returned h data p cp r H)
    as [->|(cs' & ce' & first & last & inception & _ & _ & _ & _ & _ & ->)];
    [discriminate|].
  cbn in Hs, He. injection Hs as ->. injection He as ->.
  cbn [isAnnualized resolution]. unfold annualizes.
  destruct p; cbn [In]; (split; [split|]); intros; intuition (try congruence).
Qed.

(** C3, on [seriesA] over one year. *)
Lemma processData_annualization_witness :
  processData utcHost seriesA P1y None = Returned seriesA_1y
  /\ (isAnnualized seriesA_1y = true <->
        (P1y = Pcustom
         /\ (1 <=? calculateYearFrac utcHost (localDate utcHost 2020 0 1)
                     (localDate utcHost 2021 0 1))%float = true)
        \/ In P1y [P1y; P3y; P5y; P10y; P15y; P20y; Psi])
  /\ (In P1y [P1m; P3m; Pytd] -> isAnnualized seriesA_1y = false).
Proof.
  assert (H : processData utcHost seriesA P1y None = Returned seriesA_1y)
    by (vm_compute; reflexivity).
  split; [exact H|].
  exact (processData_annualization utcHost seriesA P1y None seriesA_1y
           (localDate utcHost 2020 0 1) (localDate utcHost 2021 0 1)
           H eq_refl eq_refl).
Defined.

(** C5 fails on the code: with the custom period from 1 June back to
    1 January 2020 the resolved start is after the resolved end, no sample
    lies between them, and reading the first one's value throws. *)
Lemma processData_reversed_custom_throws :
  processData utcHost seriesA Pcustom (Some reversedCustom) = Thrown TypeError.
Proof. vm_compute. reflexivity. Qed.

(** C6, as the code has it.  Whenever some sample is usable and the period
    is a preset, or an ordered custom period whose two dates are at most
    2^53 milliseconds from every sample, [processData] returns a record,
    whatever the values are.  If the start value is 0 (or -0) and the result
    is not annualized, the return is [endValue / startValue - 1], which is
    Infinity, -Infinity or NaN. *)
Theorem processData_zero_start_value h data p cp :
  usable h data -> orderedPeriod p cp -> measurablePeriod data p cp ->
  exists r sv ev rv,
    processData h data p cp = Returned r
    /\ startValue r = Some sv /\ endValue r = Some ev /\ returnValue r = Some rv
    /\ ((sv =? 0)%float = true -> isAnnualized r = false ->
        rv = (ev / sv - 1)%float /\ not_finite rv = true).
Proof.
  intros Hu Ho Hm.
  destruct (processData_resolves h data p cp Hu Ho Hm)
    as (cs & ce & first & last & inception & E & _).
  cbv zeta in E. rewrite E.
  exists (resolution h (sortByDate data) p cs ce first last inception),
    (value first), (value last),
    (returnFor h (annualizes h p cs ce) cs ce (value first) (value last)).
  split; [reflexivity|]. do 3 (split; [reflexivity|]).
  cbn [isAnnualized resolution]. intros Hzero Hsimple.
  rewrite Hsimple. cbn [returnFor].
  split; [reflexivity|apply div_zero_not_finite, Hzero].
Qed.

(** C6, on [seriesZero] over one month. *)
Lemma processData_zero_start_value_witness :
  exists r sv ev rv,
    processData utcHost seriesZero P1m None = Returned r
    /\ startValue r = Some sv /\ endValue r = Some ev /\ returnValue r = Some rv
    /\ ((sv =? 0)%float = true -> isAnnualized r = false ->
        rv = (ev / sv - 1)%float /\ not_finite rv = true).
Proof.
  apply (processData_zero_start_value utcHost seriesZero P1m None).
  - exists (sample utcHost 2020 0 1 0). split; [left; reflexivity|].
    vm_compute. discriminate.
  - exact I.
  - exact I.
Defined.

(** C6 fails as stated: on [seriesZero] over one month the start value is 0
    and [processData] returns normally, with Infinity as the return. *)
Lemma processData_zero_start_returns_Infinity :
  exists r,
    processData utcHost seriesZero P1m None = Returned r
    /\ startValue r = Some 0%float
    /\ endValue r = Some 110%float
    /\ returnValue r = Some infinity.
Proof. eexists. vm_compute. repeat split. Qed.

(** C8.  On an empty series, and on a series all of whose samples are dated
    after the clock's reading, [processData] returns the empty result and
    does not throw. *)
Theorem processData_empty h data p cp :
  data = [] \/ (forall q, In q data -> currentTime h < getTime (date q)) ->
  processData h data p cp = Returned emptyResult.
Proof.
  intros [->|Hfuture]; [reflexivity|].
  rewrite processData_cases.
  destruct data as [|d0 data']; [reflexivity|]. cbv zeta.
  rewrite find_latest_None; [reflexivity|].
  intros q Hq. apply (proj1 (sortByDate_In _ _)) in Hq.
  specialize (Hfuture q Hq).
  unfold leb, newDate. cbn [getTime]. lia.
Qed.

(** C8, on [seriesA] read in 2019. *)
Lemma processData_empty_witness :
  processData earlyHost seriesA P1y None = Returned emptyResult.
Proof.
  apply (processData_empty earlyHost seriesA P1y None).
  right. intros q [<-|[<-|[<-|[]]]]; vm_compute; reflexivity.
Defined.

(** C9, as the code has it.  [processData] takes no [now]: it reads the
    wall clock.  Two calls with the same series and period, in the same zone
    and with the same [Math.pow], return the same outcome whenever the two
    readings of the clock leave the same samples usable; in particular
    whenever they are the same reading. *)
Theorem processData_depends_on_clock_through_usable_samples h1 h2 data p cp :
  LocalTZA h1 = LocalTZA h2 ->
  Math_pow h1 = Math_pow h2 ->
  (forall q, In q data ->
     (getTime (date q) <= currentTime h1 <-> getTime (date q) <= currentTime h2)) ->
  processData h1 data p cp = processData h2 data p cp.
Proof.
  intros Etz Epow Hclock.
  rewrite !processData_cases.
  destruct data as [|d0 data']; [reflexivity|]. cbv zeta.
  set (sorted := sortByDate (d0 :: data')).
  rewrite (find_ext_in (fun item => leb (date item) (newDate h1))
             (fun item => leb (date item) (newDate h2))).
  2:{ intros x Hx. rewrite <- in_rev in Hx.
      apply (proj1 (sortByDate_In _ _)) in Hx. specialize (Hclock x Hx).
      unfold leb, newDate. cbn [getTime].
      destruct (Z.leb_spec (getTime (date x)) (currentTime h1)),
        (Z.leb_spec (getTime (date x)) (currentTime h2)); try reflexivity; lia. }
  destruct (find _ _) as [latest|]; [|reflexivity].
  assert (ER : targetRange h1 sorted latest p cp = targetRange h2 sorted latest p cp).
  { unfold targetRange.
    destruct p, cp; try reflexivity;
      rewrite (calculateStartDate_host h1 h2) by exact Etz; reflexivity. }
  rewrite ER.
  destruct (targetRange h2 sorted latest p cp) as [[te ts]|]; [|reflexivity].
  cbn [fst snd].
  destruct (findClosestDate ts _) as [cs|]; [|reflexivity].
  destruct (findClosestDate te _) as [ce|]; [|reflexivity].
  cbv zeta.
  destruct (element (filter (inWindow cs ce) sorted) 0) as [first|]; [|reflexivity].
  destruct (element (filter (inWindow cs ce) sorted) _) as [last|]; [|reflexivity].
  destruct (element sorted 0) as [inception|]; [|reflexivity].
  f_equal. unfold resolution, annualizes, returnFor.
  rewrite Epow. destruct p; rewrite ?(calculateYearFrac_host h1 h2) by exact Etz;
    reflexivity.
Qed.

(** C9, on [seriesA] read on 1 January 2026 and on 1 January 2021. *)
Lemma processData_depends_on_clock_witness :
  processData utcHost seriesA P1y None
  = processData (mkHost 0 1609459200000 examplePow) seriesA P1y None.
Proof.
  apply (processData_depends_on_clock_through_usable_samples utcHost
           (mkHost 0 1609459200000 examplePow) seriesA P1y None);
    [reflexivity|reflexivity|].
  intros q [<-|[<-|[<-|[]]]]; vm_compute; split; discriminate.
Defined.

(** C9 fails as stated: the same call on [seriesA] returns the empty
    result when the clock reads 2019 and a resolution when it reads 2026. *)
Lemma processData_reads_the_wall_clock :
  LocalTZA earlyHost = LocalTZA utcHost
  /\ Math_pow earlyHost = Math_pow utcHost
  /\ processData earlyHost seriesA P1y None = Returned emptyResult
  /\ processData utcHost seriesA P1y None = Returned seriesA_1y
  /\ processData earlyHost seriesA P1y None <> processData utcHost seriesA P1y None.
Proof.
  assert (E1 : processData earlyHost seriesA P1y None = Returned emptyResult)
    by (vm_compute; reflexivity).
  assert (E2 : processData utcHost seriesA P1y None = Returned seriesA_1y)
    by (vm_compute; reflexivity).
  repeat split; try assumption.
  rewrite E1, E2. discriminate.
Qed.

(** C10.  For a non-empty filtered series, part of the full dataset, whose
    first value is finite and not zero, the chart data give each point the
    indexed value [value / baseline * 100] with the first value as baseline,
    and the first point's indexed value is exactly 100. *)
Theorem ChartDisplay_indexes_to_period_start h data fullDataset first rest :
  data = first :: rest ->
  finite_nonzero (value first) = true ->
  incl data fullDataset ->
  exists chartData,
    ChartDisplay h data fullDataset = Returned (Chart chartData)
    /\ map ChartPoint.indexedValue chartData
       = map (fun p => (value p / value first * 100)%float) data
    /\ option_map ChartPoint.indexedValue (nth_error chartData 0) = Some 100%float.
Proof.
  intros -> Hfin Hincl.
  assert (Hne : sortByDate fullDataset <> []).
  { apply sortByDate_nonempty. intros ->.
    exact (Hincl first (or_introl eq_refl)). }
  destruct (element_head _ Hne) as [inception Ei].
  unfold ChartDisplay. rewrite Ei.
  eexists. split; [reflexivity|]. split.
  - rewrite map_map. reflexivity.
  - cbn [map nth_error option_map ChartPoint.indexedValue].
    rewrite (index_of_baseline _ Hfin). reflexivity.
Qed.

(** C10, on the resolution of [seriesA] over one year. *)
Lemma ChartDisplay_indexes_witness :
  exists chartData,
    ChartDisplay utcHost (filteredData seriesA_1y) seriesA = Returned (Chart chartData)
    /\ map ChartPoint.indexedValue chartData
       = map (fun p => (value p / 100 * 100)%float) (filteredData seriesA_1y)
    /\ option_map ChartPoint.indexedValue (nth_error chartData 0) = Some 100%float.
Proof.
  apply (ChartDisplay_indexes_to_period_start utcHost (filteredData seriesA_1y)
           seriesA (sample utcHost 2020 0 1 100)
           [sample utcHost 2020 5 1 110; sample utcHost 2021 0 1 121]).
  - reflexivity.
  - vm_compute. reflexivity.
  - intros q [<-|[<-|[<-|[]]]]; cbn; auto.
Defined.

(** * Further properties of the code *)

(** ** calculateYearFrac *)

(** X1.  The year fraction does not depend on the order of its two dates. *)
Theorem calculateYearFrac_symmetric h a b :
  calculateYearFrac h a b = calculateYearFrac h b a.
Proof. apply calculateYearFrac_swap. Qed.


(** X3.  For dates in the range of a [Date], in a zone within a day of UTC,
    the year fraction is a number that is at least 0: it is neither negative
    nor NaN. *)
Theorem calculateYearFrac_nonneg h a b :
  plausibleZone h -> inTimeRange a -> inTimeRange b ->
  (0 <=? calculateYearFrac h a b)%float = true.
Proof.
  intros Hz Ha Hb.
  destruct (Z.le_gt_cases (getTime a) (getTime b)) as [Hle|Hgt].
  - apply calculateYearFrac_ordered_nonneg; assumption.
  - rewrite calculateYearFrac_swap.
    apply calculateYearFrac_ordered_nonneg; try assumption. lia.
Qed.

(** X3, from 31 March 2025 back to 31 March 2015. *)
Lemma calculateYearFrac_nonneg_witness :
  (0 <=? calculateYearFrac utcHost (localDate utcHost 2025 2 31)
           (localDate utcHost 2015 2 31))%float = true.
Proof.
  apply (calculateYearFrac_nonneg utcHost (localDate utcHost 2025 2 31)
           (localDate utcHost 2015 2 31));
    vm_compute; discriminate.
Defined.

(** X4.  From a calendar day to the same day of the same month a whole
    number [k] of years later, the day count is exactly [360 * k]. *)
Theorem calculateYearFrac_whole_years h y m d k :
  0 <= m <= 11 -> 1 <= d <= DaysInMonth y m -> d <= DaysInMonth (y + k) m ->
  0 <= k ->
  calculateYearFrac h (localDate h y m d) (localDate h (y + k) m d)
  = (Z2F (360 * k) / 360)%float.
Proof.
  intros Hm Hd Hd' Hk.
  destruct (localDate_components h y m d Hm Hd) as (A & B & C).
  destruct (localDate_components h (y + k) m d Hm ltac:(lia)) as (A' & B' & C').
  rewrite calculateYearFrac_ordered.
  - cbv zeta. rewrite A, B, C, A', B', C'. f_equal. f_equal.
    destruct (Z.eqb_spec d 31); cbn [andb];
      try match goal with |- context [30 <=? ?x] => destruct (Z.leb_spec 30 x) end;
      lia.
  - apply localDate_le; try exact Hm. lia.
Qed.

(** X4, from 31 March 2015 over ten years. *)
Lemma calculateYearFrac_whole_years_witness :
  calculateYearFrac utcHost (localDate utcHost 2015 2 31)
    (localDate utcHost (2015 + 10) 2 31)
  = (Z2F (360 * 10) / 360)%float.
Proof.
  apply (calculateYearFrac_whole_years utcHost 2015 2 31 10);
    vm_compute; try split; discriminate.
Defined.

(** ** findClosestDate *)

(** X5.  A target that is itself one of the candidates is returned. *)
Theorem findClosestDate_returns_exact_match targetDate dates :
  In targetDate dates -> findClosestDate targetDate dates = Some targetDate.
Proof. apply findClosestDate_exact. Qed.

(** X5, with 1 April 2015 among the candidates. *)
Lemma findClosestDate_returns_exact_match_witness :
  findClosestDate (localDate utcHost 2015 3 1)
    [localDate utcHost 2015 2 30; localDate utcHost 2015 3 1]
  = Some (localDate utcHost 2015 3 1).
Proof.
  apply (findClosestDate_returns_exact_match (localDate utcHost 2015 3 1)
           [localDate utcHost 2015 2 30; localDate utcHost 2015 3 1]).
  right. left. reflexivity.
Defined.

(** X6.  Over one list of candidates, each at most 2^53 milliseconds from
    either target, a later target never resolves to an earlier candidate. *)
Theorem findClosestDate_monotone t1 t2 dates c1 c2 :
  exactDifferences t1 dates -> exactDifferences t2 dates ->
  getTime t1 <= getTime t2 ->
  findClosestDate t1 dates = Some c1 ->
  findClosestDate t2 dates = Some c2 ->
  getTime c1 <= getTime c2.
Proof. apply findClosestDate_mono. Qed.

(** X6, with targets 31 March and 2 April 2015. *)
Lemma findClosestDate_monotone_witness :
  getTime (localDate utcHost 2015 2 30) <= getTime (localDate utcHost 2015 3 1).
Proof.
  apply (findClosestDate_monotone (localDate utcHost 2015 2 31)
           (localDate utcHost 2015 3 2)
           [localDate utcHost 2015 2 30; localDate utcHost 2015 3 1]);
    try (intros d [<-|[<-|[]]]);
    vm_compute; solve [discriminate | reflexivity].
Defined.

(** X7.  With every candidate at most 2^53 milliseconds from the target, a
    target at or after every candidate resolves to a latest candidate, and a
    target at or before every candidate to an earliest one: dates outside
    the series snap to its ends. *)
Theorem findClosestDate_clamps targetDate dates closest :
  exactDifferences targetDate dates ->
  findClosestDate targetDate dates = Some closest ->
  ((forall d, In d dates -> getTime d <= getTime targetDate) ->
   forall d, In d dates -> getTime d <= getTime closest)
  /\ ((forall d, In d dates -> getTime targetDate <= getTime d) ->
      forall d, In d dates -> getTime closest <= getTime d).
Proof.
  intros Hex H.
  pose proof (findClosestDate_In _ _ _ H) as Hin.
  destruct dates as [|a l]; [discriminate|].
  destruct (findClosestDate_spec_exact targetDate (a :: l) ltac:(discriminate) Hex)
    as (k & c & E & _ & Hmin & _).
  rewrite H in E. injection E as <-.
  split; intros Hall d Hd; destruct (In_nth_error _ _ Hd) as [j Hj];
    specialize (Hmin j d Hj); unfold distance in Hmin;
    pose proof (Hall d Hd); pose proof (Hall closest Hin); lia.
Qed.

(** X7, with the target 1 January 2026 after both candidates. *)
Lemma findClosestDate_clamps_witness :
  ((forall d, In d [localDate utcHost 2015 2 30; localDate utcHost 2015 3 1] ->
              getTime d <= getTime (localDate utcHost 2026 0 1)) ->
   forall d, In d [localDate utcHost 2015 2 30; localDate utcHost 2015 3 1] ->
             getTime d <= getTime (localDate utcHost 2015 3 1))
  /\ ((forall d, In d [localDate utcHost 2015 2 30; localDate utcHost 2015 3 1] ->
                 getTime (localDate utcHost 2026 0 1) <= getTime d) ->
      forall d, In d [localDate utcHost 2015 2 30; localDate utcHost 2015 3 1] ->
                getTime (localDate utcHost 2015 3 1) <= getTime d).
Proof.
  apply (findClosestDate_clamps (localDate utcHost 2026 0 1)
           [localDate utcHost 2015 2 30; localDate utcHost 2015 3 1]
           (localDate utcHost 2015 3 1)).
  - intros d [<-|[<-|[]]]; vm_compute; discriminate.
  - vm_compute. reflexivity.
Defined.

(** ** calculateStartDate *)

(** X8.  For every preset that goes back in the calendar, and for the year
    to date, the start date is not after the end date. *)
Theorem calculateStartDate_not_after_end h p e :
  p <> Psi -> p <> Pcustom ->
  getTime (calculateStartDate h p e) <= getTime e.
Proof. apply calculateStartDate_earlier. Qed.

(** X8, three months before 31 May 2015. *)
Lemma calculateStartDate_not_after_end_witness :
  getTime (calculateStartDate utcHost P3m (localDate utcHost 2015 4 31))
  <= getTime (localDate utcHost 2015 4 31).
Proof.
  apply (calculateStartDate_not_after_end utcHost P3m (localDate utcHost 2015 4 31));
    discriminate.
Defined.

(** ** processData *)

(** X9.  When some sample is usable and the period is a preset, or an
    ordered custom period whose two dates are at most 2^53 milliseconds from
    every sample, [processData] returns a record whose filtered series is
    not empty: its first sample carries the start date and start value, its
    last sample the end date and end value, and the start date is not after
    the end date. *)
Theorem processData_window_ends h data p cp :
  usable h data -> orderedPeriod p cp -> measurablePeriod data p cp ->
  exists r first last,
    processData h data p cp = Returned r
    /\ nth_error (filteredData r) 0 = Some first
    /\ nth_error (filteredData r) (length (filteredData r) - 1) = Some last
    /\ startDate r = Some (date first) /\ endDate r = Some (date last)
    /\ startValue r = Some (value first) /\ endValue r = Some (value last)
    /\ getTime (date first) <= getTime (date last).
Proof.
  intros Hu Ho Hm.
  destruct (processData_resolves h data p cp Hu Ho Hm)
    as (cs & ce & first & last & inception & E & Ef & El & _ & Df & Dl & Hle).
  cbv zeta in *. rewrite E. eexists _, first, last. split; [reflexivity|].
  cbn [filteredData startDate endDate startValue endValue resolution].
  apply element_Returned in Ef. apply element_Returned in El.
  rewrite Df, Dl. repeat split; assumption.
Qed.

(** X9, on [seriesA] over the custom period of 2020. *)
Lemma processData_window_ends_witness :
  exists r first last,
    processData utcHost seriesA Pcustom (Some wholeYearCustom) = Returned r
    /\ nth_error (filteredData r) 0 = Some first
    /\ nth_error (filteredData r) (length (filteredData r) - 1) = Some last
    /\ startDate r = Some (date first) /\ endDate r = Some (date last)
    /\ startValue r = Some (value first) /\ endValue r = Some (value last)
    /\ getTime (date first) <= getTime (date last).
Proof.
  apply (processData_window_ends utcHost seriesA Pcustom (Some wholeYearCustom)).
  - exists (sample utcHost 2020 0 1 100). split; [right; left; reflexivity|].
    vm_compute. discriminate.
  - vm_compute. discriminate.
  - split; intros d [<-|[<-|[<-|[]]]]; vm_compute; discriminate.
Defined.

(** X10.  The filtered series of a returned resolution is in chronological
    order and holds exactly the samples of the input dated from the start
    date to the end date, both included. *)
Theorem processData_filteredData_is_the_window h data p cp r cs ce :
  processData h data p cp = Returned r ->
  startDate r = Some cs -> endDate r = Some ce ->
  chronological (filteredData r)
  /\ forall q, In q (filteredData r)
               <-> In q data /\ getTime cs <= getTime (date q) <= getTime ce.
Proof. apply filteredData_spec. Qed.

(** X10, on [seriesA] over one year. *)
Lemma processData_filteredData_is_the_window_witness :
  chronological (filteredData seriesA_1y)
  /\ forall q, In q (filteredData seriesA_1y)
               <-> In q seriesA
                   /\ getTime (localDate utcHost 2020 0 1) <= getTime (date q)
                      <= getTime (localDate utcHost 2021 0 1).
Proof.
  apply (processData_filteredData_is_the_window utcHost seriesA P1y None);
    vm_compute; reflexivity.
Defined.

(** X11.  When some sample is usable and the sample dates closest to a
    custom period's start and end are crossed, the closest start after the
    closest end, [processData] throws a [TypeError]. *)
Theorem processData_crossed_custom_throws h data c cs ce :
  usable h data ->
  findClosestDate (CustomPeriod.startDate c) (map date (sortByDate data)) = Some cs ->
  findClosestDate (CustomPeriod.endDate c) (map date (sortByDate data)) = Some ce ->
  getTime ce < getTime cs ->
  processData h data Pcustom (Some c) = Thrown TypeError.
Proof.
  intros (q & Hq & Hnow) Ecs Ece Hlt.
  rewrite processData_cases.
  destruct data as [|d0 data']; [contradiction|]. cbv zeta.
  destruct (find_latest_Some (newDate h) (sortByDate (d0 :: data')) q)
    as (latest & -> & _).
  { apply sortByDate_In. exact Hq. }
  { unfold leb, newDate. cbn [getTime]. lia. }
  unfold targetRange. cbn [fst snd]. rewrite Ecs, Ece. cbv beta iota zeta.
  rewrite filter_none; [reflexivity|].
  intros x _. unfold inWindow, leb.
  destruct (Z.leb_spec (getTime cs) (getTime (date x))),
    (Z.leb_spec (getTime (date x)) (getTime ce)); try reflexivity. lia.
Qed.

(** X11, on [seriesA] with the custom period from 1 June back to 1 January
    2020. *)
Lemma processData_crossed_custom_throws_witness :
  processData utcHost seriesA Pcustom (Some reversedCustom) = Thrown TypeError.
Proof.
  apply (processData_crossed_custom_throws utcHost seriesA reversedCustom
           (localDate utcHost 2020 5 1) (localDate utcHost 2020 0 1)).
  - exists (sample utcHost 2020 0 1 100). split; [right; left; reflexivity|].
    vm_compute. discriminate.
  - vm_compute. reflexivity.
  - vm_compute. reflexivity.
  - vm_compute. reflexivity.
Defined.



(** X13.  The inception date and value of a returned resolution are those
    of one sample of the input, and no sample is dated before it. *)
Theorem processData_inception_is_earliest h data p cp r d :
  processData h data p cp = Returned r -> inceptionStartDate r = Some d ->
  (exists q, In q data /\ date q = d /\ inceptionStartValue r = Some (value q))
  /\ forall q, In q data -> getTime d <= getTime (date q).
Proof. apply inception_earliest. Qed.

(** X13, on [seriesA] over one year. *)
Lemma processData_inception_is_earliest_witness :
  (exists q, In q seriesA /\ date q = localDate utcHost 2020 0 1
             /\ inceptionStartValue seriesA_1y = Some (value q))
  /\ forall q, In q seriesA ->
               getTime (localDate utcHost 2020 0 1) <= getTime (date q).
Proof.
  apply (processData_inception_is_earliest utcHost seriesA P1y None seriesA_1y).
  - vm_compute. reflexivity.
  - reflexivity.
Defined.

(** X14.  Since inception, the filtered series of a returned resolution
    holds exactly the samples dated at or before the clock's reading. *)
Theorem processData_since_inception h data cp r cs :
  processData h data Psi cp = Returned r -> startDate r = Some cs ->
  forall q, In q (filteredData r)
            <-> In q data /\ getTime (date q) <= currentTime h.
Proof.
  intros H Hs q.
  destruct (endDate r) as [ce|] eqn:He.
  2:{ destruct (processData_Returned h data Psi cp r H)
        as [->|(? & ? & ? & ? & ? & _ & _ & _ & _ & _ & ->)]; discriminate. }
  destruct (filteredData_spec h data Psi cp r cs ce H Hs He) as [_ Hw].
  destruct (preset_end_latest h data Psi cp r ce H He
              ltac:(left; discriminate)) as [Hce Hmax].
  pose proof (processData_since_inception_start h data cp r H) as Hi.
  rewrite Hs in Hi. symmetry in Hi.
  destruct (inception_earliest h data Psi cp r cs H Hi) as [_ Hmin].
  rewrite Hw. split.
  - intros [Hq [_ Hle]]. split; [exact Hq|lia].
  - intros [Hq Hle]. split; [exact Hq|]. split; [apply Hmin, Hq|apply Hmax; assumption].
Qed.

(** X14, on [seriesA]. *)
Lemma processData_since_inception_witness :
  processData utcHost seriesA Psi None = Returned seriesA_1y
  /\ forall q, In q (filteredData seriesA_1y)
               <-> In q seriesA /\ getTime (date q) <= currentTime utcHost.
Proof.
  assert (H : processData utcHost seriesA Psi None = Returned seriesA_1y)
    by (vm_compute; reflexivity).
  split; [exact H|].
  exact (processData_since_inception utcHost seriesA None seriesA_1y
           (localDate utcHost 2020 0 1) H eq_refl).
Defined.

(** X15.  Under a custom period an annualized result is always the compound
    annual growth rate: the fallback to the simple return for spans under a
    month is never taken there. *)
Theorem processData_custom_annualized_is_CAGR h data cp r cs ce sv ev :
  processData h data Pcustom cp = Returned r ->
  startDate r = Some cs -> endDate r = Some ce ->
  startValue r = Some sv -> endValue r = Some ev ->
  isAnnualized r = true ->
  returnValue r
  = Some (Math_pow h (ev / sv) (1 / calculateYearFrac h cs ce) - 1)%float.
Proof.
  intros H Hs He Hsv Hev Ha.
  destruct (processData_Returned h data Pcustom cp r H)
    as [->|(cs' & ce' & first & last & inception & _ & _ & _ & _ & _ & ->)];
    [discriminate|].
  cbn in Hs, He, Hsv, Hev, Ha.
  injection Hs as ->. injection He as ->. injection Hsv as <-. injection Hev as <-.
  cbn [returnValue resolution annualizes]. unfold returnFor.
  rewrite Ha, (leb_one_twelfth _ Ha). reflexivity.
Qed.

(** X15, on [seriesA] from 1 January 2020 to 1 January 2021. *)
Lemma processData_custom_annualized_is_CAGR_witness :
  processData utcHost seriesA Pcustom (Some wholeYearCustom) = Returned seriesA_1y
  /\ returnValue seriesA_1y
     = Some (Math_pow utcHost (121 / 100)
               (1 / calculateYearFrac utcHost (localDate utcHost 2020 0 1)
                      (localDate utcHost 2021 0 1)) - 1)%float.
Proof.
  assert (H : processData utcHost seriesA Pcustom (Some wholeYearCustom)
              = Returned seriesA_1y) by (vm_compute; reflexivity).
  split; [exact H|].
  exact (processData_custom_annualized_is_CAGR utcHost seriesA
           (Some wholeYearCustom) seriesA_1y
           (localDate utcHost 2020 0 1) (localDate utcHost 2021 0 1)
           100%float 121%float H eq_refl eq_refl eq_refl eq_refl eq_refl).
Defined.

(** X16.  Under a custom period the clock only decides whether any sample
    is usable: two calls in the same zone, each with some usable sample,
    return the same outcome, whichever samples are in the future. *)
Theorem processData_custom_ignores_future h1 h2 data c :
  LocalTZA h1 = LocalTZA h2 -> Math_pow h1 = Math_pow h2 ->
  usable h1 data -> usable h2 data ->
  processData h1 data Pcustom (Some c) = processData h2 data Pcustom (Some c).
Proof.
  intros Etz Epow (q1 & Hq1 & Hn1) (q2 & Hq2 & Hn2).
  assert (Hne : data <> []) by (intros ->; contradiction).
  rewrite !(processData_nonempty _ data _ _ Hne).
  destruct (find_latest_Some (newDate h1) (sortByDate data) q1) as (l1 & -> & _).
  { apply sortByDate_In. exact Hq1. }
  { unfold leb, newDate. cbn [getTime]. lia. }
  destruct (find_latest_Some (newDate h2) (sortByDate data) q2) as (l2 & -> & _).
  { apply sortByDate_In. exact Hq2. }
  { unfold leb, newDate. cbn [getTime]. lia. }
  unfold targetRange. cbn [fst snd].
  destruct (findClosestDate _ _) as [cs|]; [|reflexivity].
  destruct (findClosestDate _ _) as [ce|]; [|reflexivity].
  cbv zeta.
  destruct (element (filter (inWindow cs ce) (sortByDate data)) 0) as [first|];
    [|reflexivity].
  destruct (element (filter (inWindow cs ce) (sortByDate data))
              (length (filter (inWindow cs ce) (sortByDate data)) - 1)) as [last|];
    [|reflexivity].
  destruct (element (sortByDate data) 0) as [inception|]; [|reflexivity].
  f_equal. unfold resolution, annualizes, returnFor.
  rewrite Epow, (calculateYearFrac_host h1 h2) by exact Etz. reflexivity.
Qed.

(** X16, on [seriesA] read on 1 January 2026 and on 1 January 2020. *)
Lemma processData_custom_ignores_future_witness :
  processData utcHost seriesA Pcustom (Some wholeYearCustom)
  = processData (mkHost 0 1577836800000 examplePow) seriesA Pcustom
      (Some wholeYearCustom).
Proof.
  apply (processData_custom_ignores_future utcHost
           (mkHost 0 1577836800000 examplePow) seriesA); try reflexivity.
  - exists (sample utcHost 2020 0 1 100). split; [right; left; reflexivity|].
    vm_compute. discriminate.
  - exists (sample utcHost 2020 0 1 100). split; [right; left; reflexivity|].
    vm_compute. discriminate.
Defined.

(** X17.  The result does not depend on the order in which the samples are
    passed, provided no two of them carry the same date. *)
Theorem processData_order_independent h data1 data2 p cp :
  Permutation data1 data2 -> distinctDates data1 ->
  processData h data1 p cp = processData h data2 p cp.
Proof.
  intros P D.
  destruct data1 as [|a l1] eqn:E1.
  - apply Permutation_nil in P. subst. reflexivity.
  - rewrite <- E1 in *.
    assert (N1 : data1 <> []) by (rewrite E1; discriminate).
    assert (N2 : data2 <> []).
    { intros ->. apply Permutation_sym, Permutation_nil in P. contradiction. }
    rewrite (processData_nonempty h data1 p cp N1),
      (processData_nonempty h data2 p cp N2).
    rewrite (sortByDate_permutation data1 data2 P D). reflexivity.
Qed.

(** X17, on [seriesA] and its chronological arrangement. *)
Lemma processData_order_independent_witness :
  processData utcHost seriesA P1y None
  = processData utcHost (filteredData seriesA_1y) P1y None.
Proof.
  apply (processData_order_independent utcHost seriesA (filteredData seriesA_1y)).
  - apply perm_swap.
  - unfold distinctDates. vm_compute.
    repeat constructor; cbn [In]; intuition discriminate.
Defined.

(** ** processData with its callers *)

(** X18.  After an upload of a chronological series with a usable sample,
    [processData] over the custom period that [App] installs returns a record
    whose filtered series is the whole series. *)
Theorem processData_after_upload h data customPeriod :
  chronological data -> usable h data ->
  exists r,
    processData h data Pcustom (Some (handleDataUpload data customPeriod))
    = Returned r
    /\ filteredData r = data.
Proof.
  intros Hs Hu.
  destruct data as [|first rest] eqn:Ed; [destruct Hu as (q & [] & _)|].
  rewrite <- Ed in *.
  assert (Hne : data <> []) by (rewrite Ed; discriminate).
  assert (Hfirst : nth_error data 0 = Some first) by (rewrite Ed; reflexivity).
  pose proof (last_nth_error data first Hne) as Hlast.
  assert (Hc : handleDataUpload data customPeriod
               = {| CustomPeriod.startDate := date first;
                    CustomPeriod.endDate := date (last data first) |})
    by (rewrite Ed; reflexivity).
  rewrite Hc.
  assert (Hord : orderedPeriod Pcustom
                   (Some {| CustomPeriod.startDate := date first;
                            CustomPeriod.endDate := date (last data first) |})).
  { cbn. apply (chronological_first data first _ Hs Hfirst).
    eapply nth_error_In, Hlast. }
  revert Hu. intros (q0 & Hq0 & Hnow).
  rewrite (processData_nonempty h data _ _ Hne).
  rewrite (sortByDate_sorted_id data Hs).
  destruct (find_latest_Some (newDate h) data q0 Hq0) as (latest & -> & _).
  { unfold leb, newDate. cbn [getTime]. lia. }
  unfold targetRange. cbn [fst snd CustomPeriod.startDate CustomPeriod.endDate].
  rewrite (findClosestDate_exact (date first))
    by (apply in_map; eapply nth_error_In, Hfirst).
  rewrite (findClosestDate_exact (date (last data first)))
    by (apply in_map; eapply nth_error_In, Hlast).
  cbv beta iota zeta.
  assert (Hall : filter (inWindow (date first) (date (last data first))) data = data).
  { apply filter_all. intros x Hx. unfold inWindow, leb.
    pose proof (chronological_first data first x Hs Hfirst Hx) as A.
    pose proof (chronological_last data (last data first) x Hs Hlast Hx) as B.
    unfold notAfter in A, B.
    apply andb_true_iff. split; apply Z.leb_le; assumption. }
  rewrite Hall. unfold element. rewrite Hfirst, Hlast.
  eexists. split; [reflexivity|]. cbn [filteredData resolution]. exact Hall.
Qed.

(** X18, on the chronological arrangement of [seriesA]. *)
Lemma processData_after_upload_witness :
  exists r,
    processData utcHost (filteredData seriesA_1y) Pcustom
      (Some (handleDataUpload (filteredData seriesA_1y) reversedCustom))
    = Returned r
    /\ filteredData r = filteredData seriesA_1y.
Proof.
  apply (processData_after_upload utcHost (filteredData seriesA_1y) reversedCustom).
  - unfold chronological, notAfter.
    repeat constructor; vm_compute; discriminate.
  - exists (sample utcHost 2020 0 1 100). split; [left; reflexivity|].
    vm_compute. discriminate.
Defined.



(** X20.  For a record that [processData] returned, the results panel and
    the chart show their "no data" message in the same case: exactly when the
    record is the empty result. *)
Theorem no_data_panels_agree h data p cp r :
  processData h data p cp = Returned r ->
  (resultsOf r = NoResultsMessage <-> r = emptyResult)
  /\ (ChartDisplay h (filteredData r) data = Returned NoDataMessage
      <-> r = emptyResult).
Proof.
  intros H.
  destruct (processData_Returned h data p cp r H)
    as [->|(cs & ce & first & last & inception & _ & _ & Ef & _ & Ei & ->)].
  - split; split; reflexivity.
  - cbv zeta in Ef, Ei.
    pose proof (resolution_window_nonempty h data p cs ce first last inception Ef)
      as Hne.
    assert (Hr : resolution h (sortByDate data) p cs ce first last inception
                 <> emptyResult).
    { intros E. apply Hne. rewrite E. reflexivity. }
    split; split; intros E; try contradiction; exfalso.
    + discriminate E.
    + unfold ChartDisplay in E.
      destruct (filteredData _) as [|x l]; [now apply Hne|].
      rewrite Ei in E. discriminate E.
Qed.

(** X20, on [seriesA] over one year: both panels show data. *)
Lemma no_data_panels_agree_witness :
  (resultsOf seriesA_1y = NoResultsMessage <-> seriesA_1y = emptyResult)
  /\ (ChartDisplay utcHost (filteredData seriesA_1y) seriesA
      = Returned NoDataMessage
      <-> seriesA_1y = emptyResult).
Proof.
  apply (no_data_panels_agree utcHost seriesA P1y None seriesA_1y).
  vm_compute. reflexivity.
Defined.

(** X21.  Since inception, when the inception value is finite and not zero,
    the first point of the chart has indexed value exactly 100 and annualized
    return since inception exactly 0. *)
Theorem chart_starts_at_inception h data cp r v :
  processData h data Psi cp = Returned r ->
  inceptionStartValue r = Some v -> finite_nonzero v = true ->
  exists chartData point,
    ChartDisplay h (filteredData r) data = Returned (Chart chartData)
    /\ nth_error chartData 0 = Some point
    /\ ChartPoint.indexedValue point = 100%float
    /\ ChartPoint.annualizedReturnSinceInception point = 0%float.
Proof.
  intros H Hv Hfin.
  pose proof (processData_since_inception_start h data cp r H) as Hstart.
  destruct (processData_Returned h data Psi cp r H)
    as [->|(cs & ce & first & last & inception & _ & _ & Ef & _ & Ei & ->)];
    [discriminate|].
  cbv zeta in Ef, Ei. cbn in Hv, Hstart. injection Hv as <-.
  injection Hstart as ->.
  cbn [filteredData resolution].
  set (sorted := sortByDate data) in *.
  destruct sorted as [|s0 tl] eqn:Es; [discriminate|].
  cbn in Ei. injection Ei as ->.
  assert (Hin : inWindow (date inception) ce inception = true).
  { apply element_Returned in Ef. apply nth_error_In in Ef.
    apply filter_In in Ef. destruct Ef as [_ Ef].
    unfold inWindow, leb in *. apply andb_true_iff in Ef. destruct Ef as [A B].
    apply Z.leb_le in A. apply Z.leb_le in B.
    apply andb_true_iff. split; apply Z.leb_le; lia. }
  cbn [filter]. rewrite Hin.
  unfold ChartDisplay. fold sorted. rewrite Es. cbn [element nth_error].
  eexists _, _. split; [reflexivity|]. cbn [map nth_error].
  split; [reflexivity|].
  cbn [ChartPoint.indexedValue ChartPoint.annualizedReturnSinceInception].
  rewrite calculateYearFrac_same.
  split; [apply index_of_baseline, Hfin|].
  change (1 / 12 <=? 0)%float with false. cbv iota.
  apply simple_return_of_self, Hfin.
Qed.

(** X21, on [seriesA]. *)
Lemma chart_starts_at_inception_witness :
  exists chartData point,
    ChartDisplay utcHost (filteredData seriesA_1y) seriesA
    = Returned (Chart chartData)
    /\ nth_error chartData 0 = Some point
    /\ ChartPoint.indexedValue point = 100%float
    /\ ChartPoint.annualizedReturnSinceInception point = 0%float.
Proof.
  apply (chart_starts_at_inception utcHost seriesA None seriesA_1y 100%float);
    vm_compute; reflexivity.
Defined.
